(** * PlexMediaExport: completeness reconciliation, lookup cache and batch
    processing of TV shows.

    A shallow embedding of the parts of [PlexMediaExport.py] that decide how
    local (Plex) season data is reconciled with remote (TVMaze) season data,
    how remote lookups are cached and retried, and how a batch of shows is
    turned into report rows.

    Conventions of the embedding:
    - a Python [int] is a [Z]; a [dict] keyed by ints or strings is a [gmap];
    - [Optional[T]] is [option T];
    - an f-string over ints is built from [str], the decimal rendering of a
      [Z] (with a leading minus sign for negative numbers, as Python does);
    - [datetime] values are microseconds on the time line, a [Z];
    - code that raises is a computation in an exception monad over an
      explicit world (cache, clock, HTTP request count, sleep log). *)

From Stdlib Require Import ZArith Ascii String DecimalString DecimalZ.
From stdpp Require Import gmap strings list fin_maps.

Open Scope Z_scope.

(** ** Decimal rendering of integers *)

(** [str(n)] for a Python int. *)
Definition str (n : Z) : string := NilZero.string_of_int (Z.to_int n).

(** [int(s)] on a string of decimal digits with an optional minus sign, the
    strings [str] produces, also with leading zeros; [None] stands for
    [ValueError]. *)
Definition int_of_str (s : string) : option Z :=
  Z.of_int <$> NilZero.int_of_string s.

(** [f"{i:02d}"]: zero padding to width two.  The renderings shorter than
    the width are the one-character ones, those of the digits 0..9. *)
Definition fmt_02d (i : Z) : string :=
  if (0 <=? i) && (i <? 10) then "0" +:+ str i else str i.

(** ** Data model (the TypedDict declarations) *)

Record TVMazeSeasonInfo := { total_episodes : Z }.

Record TVMazeShowInfo := {
  total_seasons : Z;
  seasons : gmap Z TVMazeSeasonInfo
}.

Record PlexSeasonData := {
  episodes_in_plex : Z;
  season_number : Z
}.

(** The keys of [STYLES['fills']]. *)
Inductive PatternFill :=
  | gray      (* non-existent TV seasons *)
  | green     (* complete TV series/seasons *)
  | red       (* incomplete TV series/seasons *)
  | yellow    (* low resolution movies; unknown remote counts *)
  | light_green_4k
  | white.

#[global] Instance TVMazeSeasonInfo_eq_dec : EqDecision TVMazeSeasonInfo.
Proof. solve_decision. Defined.

(** A cell draws attention when it carries the red or the yellow fill. *)
Definition needs_attention (fill : option PatternFill) : bool :=
  match fill with
  | Some red | Some yellow => true
  | _ => false
  end.

(** ** Completeness reconciler *)

(** [max(d.keys(), default=dflt)]. *)
Definition max_key {A} (d : gmap Z A) (dflt : Z) : Z :=
  match (map_to_list d).*1 with
  | [] => dflt
  | k :: ks => foldr Z.max k ks
  end.

(** [plex_seasons_data.get(season_num, {}).get('episodes_in_plex', 0)] *)
Definition plex_episode_count (plex_seasons_data : gmap Z PlexSeasonData)
    (season_num : Z) : Z :=
  from_option episodes_in_plex 0 (plex_seasons_data !! season_num).

(** The test [tvmaze_info and tvmaze_info.get('seasons')] holds when the
    info exists and its season mapping is not empty. *)
Definition _calculate_season_cell (season_num : Z)
    (tvmaze_info : option TVMazeShowInfo)
    (plex_seasons_data : gmap Z PlexSeasonData) : string * option PatternFill :=
  let plex_s_ep_count := plex_episode_count plex_seasons_data season_num in
  match tvmaze_info with
  | Some info =>
    if bool_decide (seasons info ≠ ∅) then
      match seasons info !! season_num with
      | Some tvmaze_s_data =>
        let tvmaze_s_ep_count := total_episodes tvmaze_s_data in
        let season_text := str plex_s_ep_count +:+ "/" +:+ str tvmaze_s_ep_count in
        if tvmaze_s_ep_count =? 0 then
          (season_text, Some (if plex_s_ep_count =? 0 then gray else yellow))
        else if plex_s_ep_count >=? tvmaze_s_ep_count then
          (season_text, Some green)
        else if plex_s_ep_count >? 0 then
          (season_text, Some red)
        else
          (season_text, None)
      | None =>
        if plex_s_ep_count >? 0 then
          (str plex_s_ep_count +:+ "/?", Some yellow)
        else
          ("", Some gray)
      end
    else
      if plex_s_ep_count >? 0 then
        (str plex_s_ep_count +:+ "/?", Some yellow)
      else if season_num >? max_key plex_seasons_data (-1) then
        ("", Some gray)
      else
        ("", None)
  | None =>
    if plex_s_ep_count >? 0 then
      (str plex_s_ep_count +:+ "/?", Some yellow)
    else if season_num >? max_key plex_seasons_data (-1) then
      ("", Some gray)
    else
      ("", None)
  end.

(** [sum(1 for s_num in d if s_num > 0)] *)
Definition count_regular {A} (d : gmap Z A) : Z :=
  Z.of_nat (length (filter (λ kv, 0 < kv.1) (map_to_list d))).

(** One turn of the loop that counts the complete regular seasons. *)
Definition count_complete_step (plex_seasons_data : gmap Z PlexSeasonData)
    (count : Z) (item : Z * TVMazeSeasonInfo) : Z :=
  let '(s_num, tvmaze_s_data) := item in
  if s_num =? 0 then count
  else
    match plex_seasons_data !! s_num with
    | Some plex_s_data =>
      if (episodes_in_plex plex_s_data >=? total_episodes tvmaze_s_data)
         && (total_episodes tvmaze_s_data >? 0)
      then count + 1 else count
    | None => count
    end.

Definition _calculate_series_completion (tvmaze_info : option TVMazeShowInfo)
    (plex_seasons_data : gmap Z PlexSeasonData) : string * option PatternFill :=
  match tvmaze_info with
  | Some info =>
    let tvmaze_total_regular_seasons := count_regular (seasons info) in
    let complete_plex_regular_seasons_count :=
      fold_left (count_complete_step plex_seasons_data)
                (map_to_list (seasons info)) 0 in
    let series_status_text :=
      str complete_plex_regular_seasons_count +:+ "/"
        +:+ str tvmaze_total_regular_seasons in
    let series_fill :=
      if tvmaze_total_regular_seasons =? 0 then Some gray
      else if complete_plex_regular_seasons_count >=? tvmaze_total_regular_seasons
      then Some green
      else if complete_plex_regular_seasons_count >? 0 then Some red
      else None in
    (series_status_text, series_fill)
  | None =>
    let plex_regular_season_count := count_regular plex_seasons_data in
    (str plex_regular_season_count +:+ "/?",
     if plex_regular_season_count >? 0 then Some yellow else None)
  end.

(** ** Exceptions and the world the script runs in *)

(** The exception classes the handlers tell apart.  An HTTP error raised by
    [raise_for_status] is a [RequestException] as well. *)
Inductive Exn :=
  | RequestException   (* requests.exceptions.RequestException: network, timeout, HTTP status *)
  | ValueError         (* includes JSONDecodeError *)
  | OtherException.    (* any other Exception *)

Inductive Result (A : Type) :=
  | Ok (a : A)
  | Raise (e : Exn).
Arguments Ok {A} a.
Arguments Raise {A} e.

Record CacheEntry := {
  timestamp : Z;                    (* datetime of the insertion, in microseconds *)
  data : option TVMazeShowInfo
}.

Record World := {
  cache : gmap string CacheEntry;   (* _persistent_tvmaze_cache *)
  clock : Z;                        (* what datetime.now() reads, in microseconds *)
  requests : nat;                   (* how many HTTP requests the session has sent *)
  sleeps : list Z                   (* the delays given to time.sleep, latest first *)
}.

Definition with_cache (c : gmap string CacheEntry) (w : World) : World :=
  {| cache := c; clock := clock w; requests := requests w; sleeps := sleeps w |}.

(** A computation that may raise and that reads and changes the world. *)
Definition M (A : Type) : Type := World → Result A * World.

Definition ret {A} (a : A) : M A := λ w, (Ok a, w).

Definition raise {A} (e : Exn) : M A := λ w, (Raise e, w).

Definition bind {A B} (m : M A) (k : A → M B) : M B :=
  λ w, match m w with
       | (Ok a, w') => k a w'
       | (Raise e, w') => (Raise e, w')
       end.

(** [try: m  except Exception as e: h e] *)
Definition try_except {A} (m : M A) (h : Exn → M A) : M A :=
  λ w, match m w with
       | (Ok a, w') => (Ok a, w')
       | (Raise e, w') => h e w'
       end.

(** A pure computation that may raise, run inside [M]. *)
Definition lift {A} (r : Result A) : M A := λ w, (r, w).

Notation "x ←' m ; k" := (bind m (λ x, k))
  (at level 100, m at next level, right associativity,
   format "x  ←'  m ;  '/' k").
Notation "m ;;' k" := (bind m (λ _, k))
  (at level 100, right associativity, format "m  ;;'  '/' k").

(** ** Configuration constants *)

Definition TVMAZE_CACHE_SIZE : Z := 256.
Definition TVMAZE_MAX_RETRIES : nat := 3.
(** Delays are whole seconds: the floats 1.0, 2.0, 4.0, ... that the retry
    loop computes from the base delay 1.0 and the factor 2.0 are exact. *)
Definition TVMAZE_RETRY_DELAY : Z := 1.
Definition TVMAZE_CACHE_MAX_AGE_DAYS : Z := 30.
Definition MAX_WORKER_THREADS : nat := 10.

Definition microseconds_per_second : Z := 1000000.
Definition microseconds_per_day : Z := 86400 * microseconds_per_second.

(** [(now - timestamp).days]: a timedelta is normalised with its seconds and
    microseconds non-negative, so [.days] is the floor of the quotient. *)
Definition age_days (now ts : Z) : Z := (now - ts) / microseconds_per_day.

(** ** Retry decorator *)

(** The longest delay the model follows: up to it the whole seconds are
    exact as floats and [time.sleep] takes them. *)
Definition MAX_SLEEP : Z := 2 ^ 32.

(** [time.sleep(delay)], for a delay of whole seconds up to [MAX_SLEEP];
    a negative delay raises [ValueError]. *)
Definition time_sleep (delay : Z) : M unit :=
  λ w, if delay <? 0 then (Raise ValueError, w)
       else (Ok tt,
             {| cache := cache w;
                clock := clock w + delay * microseconds_per_second;
                requests := requests w;
                sleeps := delay :: sleeps w |}).

(** The loop of [wrapper] over the attempts still to make; [attempts] runs
    through [range(max_retries + 1)]. *)
Fixpoint retry_loop {A} (func : M (option A)) (max_retries : nat) (backoff_factor : Z)
    (attempts : list nat) (delay : Z) : M (option A) :=
  match attempts with
  | [] => ret None
  | attempt :: rest =>
    λ w, match func w with
         | (Ok v, w') => (Ok v, w')
         | (Raise RequestException, w') =>
           if (attempt <? max_retries)%nat then
             (time_sleep delay ;;'
              retry_loop func max_retries backoff_factor rest (delay * backoff_factor)) w'
           else (Raise RequestException, w')
         | (Raise e, w') => (Raise e, w')
         end
  end.

Definition retry_on_failure {A} (max_retries : nat) (base_delay backoff_factor : Z)
    (func : M (option A)) : M (option A) :=
  retry_loop func max_retries backoff_factor (seq 0 (max_retries + 1)) base_delay.

(** ** Persistent cache *)

Definition get_from_cache (key : string) (now : Z) (c : gmap string CacheEntry)
    : option TVMazeShowInfo * gmap string CacheEntry :=
  match c !! key with
  | None => (None, c)
  | Some entry =>
    if age_days now (timestamp entry) >? TVMAZE_CACHE_MAX_AGE_DAYS
    then (None, delete key c)
    else (data entry, c)
  end.

Definition add_to_cache (key : string) (value : option TVMazeShowInfo) (now : Z)
    (c : gmap string CacheEntry) : gmap string CacheEntry :=
  <[key := {| timestamp := now; data := value |}]> c.

(** The two cache operations on the world, reading the clock. *)
Definition cache_read (key : string) : M (option TVMazeShowInfo) :=
  λ w, let '(r, c) := get_from_cache key (clock w) (cache w) in
       (Ok r, with_cache c w).

Definition cache_write (key : string) (value : option TVMazeShowInfo) : M unit :=
  λ w, (Ok tt, with_cache (add_to_cache key value (clock w) (cache w)) w).

(** ** Remote catalog client *)

Inductive Request :=
  | LookupShows (imdb : string)     (* GET /lookup/shows?imdb=... *)
  | SearchShows (q : string)        (* GET /search/shows?q=... *)
  | ShowEpisodes (show_id : Z).     (* GET /shows/<id>/episodes *)

(** What a request comes back with, as far as the code looks at it. *)
Inductive Reply :=
  | NetworkFailure                  (* session.get or raise_for_status raises a RequestException *)
  | MalformedBody                   (* response.json() raises ValueError *)
  | ShowFound (show_id : option Z)  (* a lookup or search body; the id the code extracts from it, if any *)
  | EpisodeList (season_nums : list (option Z)).  (* an episode list; the 'season' of each episode *)

(** [seasons_data.setdefault(season_num, {'total_episodes': 0})['total_episodes'] += 1],
    skipping the episodes without a season number. *)
Definition count_episode (seasons_data : gmap Z TVMazeSeasonInfo)
    (episode : option Z) : gmap Z TVMazeSeasonInfo :=
  match episode with
  | None => seasons_data
  | Some season_num =>
    <[season_num :=
        {| total_episodes :=
             from_option total_episodes 0 (seasons_data !! season_num) + 1 |}]>
      seasons_data
  end.

Definition no_seasons : TVMazeShowInfo := {| total_seasons := 0; seasons := ∅ |}.

Section RemoteCatalog.
(** The remote service: what the n-th request of the run comes back with. *)
Variable server : nat → Request → Reply.

Definition session_get (req : Request) : M Reply :=
  λ w, (Ok (server (requests w) req),
        {| cache := cache w; clock := clock w;
           requests := S (requests w); sleeps := sleeps w |}).

(** The body of the [try] block of [_fetch_tvmaze_show_info_from_api].  A
    reply of the wrong shape stands for a body on which the attribute
    accesses of the code fail. *)
Definition fetch_try_block (search_term : string) (is_imdb_id : bool)
    : M (option TVMazeShowInfo) :=
  response ←' session_get (if is_imdb_id then LookupShows search_term
                           else SearchShows search_term);
  show_id ←' match response with
             | NetworkFailure => raise RequestException
             | MalformedBody => raise ValueError
             | ShowFound show_id => ret show_id
             | EpisodeList _ => raise OtherException
             end;
  match show_id with
  | Some id =>
    if id =? 0 then ret None
    else
      episodes_response ←' session_get (ShowEpisodes id);
      episodes ←' match episodes_response with
                  | NetworkFailure => raise RequestException
                  | MalformedBody => raise ValueError
                  | EpisodeList episodes => ret episodes
                  | ShowFound _ => raise OtherException
                  end;
      match episodes with
      | [] => ret (Some no_seasons)
      | _ =>
        let seasons_data := foldl count_episode ∅ episodes in
        if bool_decide (seasons_data = ∅) then ret (Some no_seasons)
        else ret (Some {| total_seasons := max_key seasons_data 0;
                          seasons := seasons_data |})
      end
  | None => ret None
  end.

(** The function as written, before the decorator is applied: each of the
    three handlers logs and falls through to [return None]. *)
Definition fetch_undecorated (search_term : string) (is_imdb_id : bool)
    : M (option TVMazeShowInfo) :=
  try_except (fetch_try_block search_term is_imdb_id) (λ _, ret None).

(** [@retry_on_failure()] applied to it, with the default arguments. *)
Definition _fetch_tvmaze_show_info_from_api (search_term : string)
    (is_imdb_id : bool) : M (option TVMazeShowInfo) :=
  retry_on_failure TVMAZE_MAX_RETRIES TVMAZE_RETRY_DELAY 2
    (fetch_undecorated search_term is_imdb_id).

Definition cache_key (search_term : string) (is_imdb_id : bool) : string :=
  if is_imdb_id then "imdb:" +:+ search_term else "title:" +:+ search_term.

Definition get_tvmaze_show_info (search_term : string) (is_imdb_id : bool)
    : M (option TVMazeShowInfo) :=
  let key := cache_key search_term is_imdb_id in
  cached_result ←' cache_read key;
  match cached_result with
  | Some r => ret (Some r)
  | None =>
    result ←' _fetch_tvmaze_show_info_from_api search_term is_imdb_id;
    match result with
    | Some r => cache_write key (Some r) ;;' ret result
    | None => ret result
    end
  end.
End RemoteCatalog.

(** ** String helpers *)

(** [s.split(sep)] for a non-empty separator: a scan from the left over the
    non-overlapping occurrences; [skip] counts the characters of a matched
    separator still to pass over, [cur] is the piece being collected. *)
Fixpoint split_go (sep : string) (skip : nat) (s cur : string) : list string :=
  match s with
  | EmptyString => [cur]
  | String c s' =>
    match skip with
    | S k => split_go sep k s' cur
    | O =>
      if String.prefix sep s
      then cur :: split_go sep (String.length sep - 1) s' ""
      else split_go sep 0 s' (cur +:+ String c "")
    end
  end.

Definition split (sep s : string) : list string := split_go sep 0 s "".

(** A text is held as the bytes of its UTF-8 encoding.  [str.strip()]
    removes, at both ends, the characters for which [str.isspace()] holds:
    U+0009 to U+000D, U+001C to U+0020, U+0085, U+00A0, U+1680, U+2000 to
    U+200A, U+2028, U+2029, U+202F, U+205F and U+3000. *)

(** The white space characters of one byte: U+0009 to U+000D and U+001C to
    U+0020. *)
Definition is_whitespace (c : ascii) : bool :=
  let n := nat_of_ascii c in
  ((9 <=? n) && (n <=? 13) || (28 <=? n) && (n <=? 32))%nat.

(** The white space characters of two bytes: U+0085 (C2 85) and U+00A0
    (C2 A0). *)
Definition is_whitespace2 (c1 c2 : ascii) : bool :=
  let n1 := nat_of_ascii c1 in
  let n2 := nat_of_ascii c2 in
  ((n1 =? 194) && ((n2 =? 133) || (n2 =? 160)))%nat.

(** The white space characters of three bytes: U+1680 (E1 9A 80), U+2000 to
    U+200A (E2 80 80 to E2 80 8A), U+2028 (E2 80 A8), U+2029 (E2 80 A9),
    U+202F (E2 80 AF), U+205F (E2 81 9F) and U+3000 (E3 80 80). *)
Definition is_whitespace3 (c1 c2 c3 : ascii) : bool :=
  let n1 := nat_of_ascii c1 in
  let n2 := nat_of_ascii c2 in
  let n3 := nat_of_ascii c3 in
  ((n1 =? 225) && (n2 =? 154) && (n3 =? 128)
   || (n1 =? 226) && (n2 =? 128)
      && ((128 <=? n3) && (n3 <=? 138) || (n3 =? 168) || (n3 =? 169) || (n3 =? 175))
   || (n1 =? 226) && (n2 =? 129) && (n3 =? 159)
   || (n1 =? 227) && (n2 =? 128) && (n3 =? 128))%nat.

(** [s.lstrip()]: the white space characters at the front are passed over,
    whatever their length in bytes. *)
Fixpoint lstrip (s : string) : string :=
  match s with
  | EmptyString => EmptyString
  | String c1 s1 =>
    if is_whitespace c1 then lstrip s1
    else
      match s1 with
      | EmptyString => s
      | String c2 s2 =>
        if is_whitespace2 c1 c2 then lstrip s2
        else
          match s2 with
          | EmptyString => s
          | String c3 s3 => if is_whitespace3 c1 c2 c3 then lstrip s3 else s
          end
      end
  end.

(** [lstrip] on a text read from its end: the bytes of a character come in
    the opposite order.  The first byte of a character of several bytes is
    no byte of another character, so the bytes matched at the end of a text
    are one character. *)
Fixpoint lstrip_reversed (s : string) : string :=
  match s with
  | EmptyString => EmptyString
  | String c1 s1 =>
    if is_whitespace c1 then lstrip_reversed s1
    else
      match s1 with
      | EmptyString => s
      | String c2 s2 =>
        if is_whitespace2 c2 c1 then lstrip_reversed s2
        else
          match s2 with
          | EmptyString => s
          | String c3 s3 =>
            if is_whitespace3 c3 c2 c1 then lstrip_reversed s3 else s
          end
      end
  end.

(** [s.strip()] *)
Definition strip (s : string) : string :=
  String.rev (lstrip_reversed (String.rev (lstrip s))).

(** The truth value of [s.strip()]: a character that is no white space is
    left once those at the front are removed. *)
Definition strip_is_nonempty (s : string) : bool :=
  negb (String.eqb (lstrip s) "").

(** [len(s)], the number of characters: every byte but the continuation
    bytes (80 to BF) starts one. *)
Fixpoint len (s : string) : nat :=
  match s with
  | EmptyString => O
  | String c s' =>
    let n := nat_of_ascii c in
    if ((128 <=? n) && (n <=? 191))%nat then len s' else S (len s')
  end.

(** ** Processing one show *)

(** A value exported to a cell. *)
Inductive Value :=
  | VStr (s : string)
  | VInt (n : Z).

(** A season as Plex reports it.  [seasonNumber] is [None] or the outcome of
    [int(s.seasonNumber)]. *)
Record PlexSeason := {
  seasonNumber : option (Result Z);
  leafCount : Z
}.

(** A show as Plex reports it: the attributes the pipeline reads itself, each
    as what reading it yields, and the remaining attributes for the field
    extractors. *)
Record PlexShow := {
  title : string;
  originalTitle : option string;
  guids : Result (list string);            (* the [id] of each guid *)
  show_seasons : Result (list PlexSeason); (* show_obj.seasons() *)
  attributes : gmap string Value
}.

(** The dictionary [process_single_show] returns.  ['max_seasons'] is an
    optional key: [get_show_details] pops it. *)
Record ShowData := {
  fields : gmap string Value;
  seasons_in_plex : gmap Z PlexSeasonData;
  tvmaze_info : option TVMazeShowInfo;
  max_seasons : option Z
}.

(** The loop over [show_obj.seasons()].  A [ValueError] of [int] skips the
    season; any other exception leaves the loop through the handler around
    it, keeping what was collected. *)
Fixpoint collect_plex_seasons (l : list PlexSeason)
    (plex_seasons_data : gmap Z PlexSeasonData) : gmap Z PlexSeasonData :=
  match l with
  | [] => plex_seasons_data
  | s :: rest =>
    match seasonNumber s with
    | None => collect_plex_seasons rest plex_seasons_data
    | Some (Ok season_num_int) =>
      collect_plex_seasons rest
        (<[season_num_int := {| episodes_in_plex := leafCount s;
                                season_number := season_num_int |}]>
           plex_seasons_data)
    | Some (Raise ValueError) => collect_plex_seasons rest plex_seasons_data
    | Some (Raise _) => plex_seasons_data
    end
  end.

(** [next((g for g in guids if g.startswith('imdb://')), None)], then
    [.split('imdb://')[-1]]. *)
Definition imdb_id_of (guid_ids : list string) : option string :=
  match List.find (String.prefix "imdb://") guid_ids with
  | Some imdb_id_full => Some (List.last (split "imdb://" imdb_id_full) "")
  | None => None
  end.

(** Python truth value of an optional string. *)
Definition truthy (s : option string) : bool :=
  match s with
  | Some s => negb (String.eqb s "")
  | None => false
  end.

(** The record a show degrades to when its processing raises. *)
Definition minimal_show_data (show_obj : PlexShow) : ShowData :=
  {| fields := {[ "Title" := VStr (title show_obj) ]};
     seasons_in_plex := ∅;
     tvmaze_info := None;
     max_seasons := Some 0 |}.

Section ShowProcessing.
(** [_get_show_field_processors()]: the extractor registered for a field
    name, as a function that may raise. *)
Variable field_processors : gmap string (PlexShow → Result Value).
Variable SELECTED_SHOW_FIELDS : list string.
(** [get_tvmaze_show_info], the callee of the lookup. *)
Variable tvmaze_lookup : string → bool → M (option TVMazeShowInfo).

Definition process_show_metadata (show_obj : PlexShow) : gmap string Value :=
  foldl (λ show_metadata field_name,
           let value :=
             match field_processors !! field_name with
             | Some processor =>
               match processor show_obj with
               | Ok value => value
               | Raise _ => VStr "Error Processing Field"
               end
             | None => VStr "N/A"
             end in
           <[field_name := value]> show_metadata)
        ∅ SELECTED_SHOW_FIELDS.

(** The [try] block of [process_single_show]. *)
Definition process_single_show_try (show_obj : PlexShow) : M ShowData :=
  let show_metadata := process_show_metadata show_obj in
  guid_ids ←' lift (guids show_obj);
  let imdb_id := imdb_id_of guid_ids in
  by_id ←' (if truthy imdb_id
            then tvmaze_lookup (default "" imdb_id) true
            else ret None);
  by_id_or_title ←'
    match by_id with
    | Some _ => ret by_id
    | None =>
      let search_title :=
        if truthy (originalTitle show_obj)
        then default "" (originalTitle show_obj)
        else title show_obj in
      if negb (String.eqb search_title "") && strip_is_nonempty search_title
      then tvmaze_lookup search_title false
      else ret None
    end;
  let show_max_seasons :=
    match by_id_or_title with
    | Some info => total_seasons info
    | None => 0
    end in
  let plex_seasons_data :=
    match show_seasons show_obj with
    | Ok l => collect_plex_seasons l ∅
    | Raise _ => ∅
    end in
  ret {| fields := show_metadata;
         seasons_in_plex := plex_seasons_data;
         tvmaze_info := by_id_or_title;
         max_seasons := Some show_max_seasons |}.

Definition process_single_show (show_obj : PlexShow) : M ShowData :=
  try_except (process_single_show_try show_obj)
             (λ _, ret (minimal_show_data show_obj)).

(** [executor.map(process_single_show, shows)]: the results in the order of
    the inputs; the workers are run one after the other here. *)
Fixpoint executor_map (shows : list PlexShow) : M (list ShowData) :=
  match shows with
  | [] => ret []
  | show_obj :: rest =>
    show_data ←' process_single_show show_obj;
    others ←' executor_map rest;
    ret (show_data :: others)
  end.

(** [show_data.pop('max_seasons', 0)] *)
Definition pop_max_seasons (show_data : ShowData) : Z * ShowData :=
  (default 0 (max_seasons show_data),
   {| fields := fields show_data;
      seasons_in_plex := seasons_in_plex show_data;
      tvmaze_info := tvmaze_info show_data;
      max_seasons := None |}).

(** The loop over [show_results].  Every result is a non-empty dictionary,
    so the test [if show_data] holds for each. *)
Definition collect_results (show_results : list ShowData) : list ShowData * Z :=
  foldl (λ '(processed_shows_data, max_seasons_overall) show_data,
           let '(show_max, show_data') := pop_max_seasons show_data in
           (processed_shows_data ++ [show_data'],
            Z.max max_seasons_overall show_max))
        ([], 0) show_results.

(** [ThreadPoolExecutor(max_workers=0)] raises a [ValueError], so an empty
    list of shows never gets as far as the results. *)
Definition get_show_details (shows : list PlexShow) : M (list ShowData * Z) :=
  let num_workers := Nat.min MAX_WORKER_THREADS (length shows) in
  if (num_workers =? 0)%nat then raise ValueError
  else
    show_results ←' executor_map shows;
    ret (collect_results show_results).



End ShowProcessing.

(** ** Report headers and rows *)

Definition ALL_POSSIBLE_SHOW_FIELDS : list string :=
  [ "Title"; "Year"; "Studio"; "ContentRating"; "Summary"; "Tagline";
    "AddedAt"; "LastViewedAt"; "OriginallyAvailableAt";
    "AudienceRating"; "Rating"; "Collections"; "Genres"; "Labels";
    "ViewCount"; "SkipCount" ].

Definition DEFAULT_SHOW_FIELDS : list string :=
  [ "Title"; "Year"; "Studio"; "ContentRating"; "Summary" ].

(** The selection of the fields to export, from the names the user listed
    (already split at the commas and stripped), if the variable is set. *)
Definition select_show_fields (user_defined : option (list string)) : list string :=
  match user_defined with
  | Some temp_selected_show_fields =>
    match filter (λ field, field ∈ ALL_POSSIBLE_SHOW_FIELDS)
                 (filter (λ field, field ≠ "") temp_selected_show_fields) with
    | [] => DEFAULT_SHOW_FIELDS
    | selected => selected
    end
  | None => DEFAULT_SHOW_FIELDS
  end.

Definition completion_header : string := "Series Complete (Plex/TVMaze)".

(** [any(0 in show_dict.get('seasons_in_plex', {}) for show_dict in shows)] *)
Definition has_specials (shows_data_full : list ShowData) : bool :=
  existsb (λ show_dict, bool_decide (is_Some (seasons_in_plex show_dict !! 0)))
          shows_data_full.

(** The second component of [_generate_tv_show_headers]. *)
Definition season_headers (shows_data_full : list ShowData)
    (max_seasons_overall : Z) : list string :=
  (if has_specials shows_data_full then ["S00"] else [])
  ++ ((λ i, "S" +:+ fmt_02d i) <$> seqZ 1 max_seasons_overall).

Definition _generate_tv_show_headers (SELECTED_SHOW_FIELDS : list string)
    (shows_data_full : list ShowData) (max_seasons_overall : Z)
    : list string * list string :=
  let season_headers_list := season_headers shows_data_full max_seasons_overall in
  (SELECTED_SHOW_FIELDS ++ [completion_header] ++ season_headers_list,
   season_headers_list).

(** [season_header_text[1:]] *)
Definition drop_first (s : string) : string :=
  match s with
  | EmptyString => EmptyString
  | String _ s' => s'
  end.

(** The season cells [_write_tv_show_row] writes after the base fields and
    the series status, each with the season number it stands for; [None] when
    [int] raises on a header. *)
Definition season_cells (show_info_full : ShowData) (season_headers_list : list string)
    : option (list (Z * (string * option PatternFill))) :=
  mapM (λ season_header_text,
          season_num ← int_of_str (drop_first season_header_text);
          Some (season_num,
                _calculate_season_cell season_num (tvmaze_info show_info_full)
                                       (seasons_in_plex show_info_full)))
       season_headers_list.

(** ** Sample data *)

(** A remote show with ten and eight episodes in its two seasons. *)
Definition remote_two_seasons : TVMazeShowInfo :=
  {| total_seasons := 2;
     seasons := {[ 1 := {| total_episodes := 10 |};
                   2 := {| total_episodes := 8 |} ]} |}.

(** Local season data from pairs (season number, episode count). *)
Definition plex_of (l : list (Z * Z)) : gmap Z PlexSeasonData :=
  list_to_map ((λ '(n, c), (n, {| episodes_in_plex := c; season_number := n |})) <$> l).

(** The numerator of the series ratio in the words of the specification: the
    remote regular seasons (season number above 0) whose local count reaches
    a positive remote count. *)
Definition complete_regular_seasons (info : TVMazeShowInfo)
    (plex_seasons_data : gmap Z PlexSeasonData) : Z :=
  Z.of_nat (length (filter
    (λ kv : Z * TVMazeSeasonInfo,
       0 < kv.1
       ∧ total_episodes kv.2 ≤ plex_episode_count plex_seasons_data kv.1
       ∧ 0 < total_episodes kv.2)
    (map_to_list (seasons info)))).

(** The remote entry of a season, if the show has remote info and the info
    lists the season. *)
Definition remote_entry (tvmaze_info : option TVMazeShowInfo) (season_num : Z)
    : option TVMazeSeasonInfo :=
  info ← tvmaze_info; seasons info !! season_num.

(** A fresh run: empty cache, clock at 0, nothing requested yet. *)
Definition fresh_world : World :=
  {| cache := ∅; clock := 0; requests := 0; sleeps := [] |}.

(** The world as it is [elapsed] microseconds later. *)
Definition later (elapsed : Z) (w : World) : World :=
  {| cache := cache w; clock := clock w + elapsed;
     requests := requests w; sleeps := sleeps w |}.

(** A service that knows show 42 with two episodes in season 1, one in
    season 2 and one episode without a season. *)
Definition reliable_server : nat → Request → Reply :=
  λ _ req,
    match req with
    | ShowEpisodes _ => EpisodeList [Some 1; Some 1; Some 2; None]
    | _ => ShowFound (Some 42)
    end.

Definition show_42 : TVMazeShowInfo :=
  {| total_seasons := 2;
     seasons := {[ 1 := {| total_episodes := 2 |};
                   2 := {| total_episodes := 1 |} ]} |}.

(** The same service behind a network that drops the first request of the
    run and delivers every later one. *)
Definition flaky_server : nat → Request → Reply :=
  λ n req,
    match n with
    | O => NetworkFailure
    | S _ => reliable_server n req
    end.

(** A service that knows no show at all. *)
Definition empty_server : nat → Request → Reply :=
  λ _ req,
    match req with
    | ShowEpisodes _ => EpisodeList []
    | _ => ShowFound None
    end.

(** A function that raises a [RequestException] while fewer than [failures]
    requests were sent, and returns [v] afterwards. *)
Definition fails_first (failures : nat) (v : Z) : M (option Z) :=
  λ w, let w' := {| cache := cache w; clock := clock w;
                    requests := S (requests w); sleeps := sleeps w |} in
       if (requests w <? failures)%nat then (Raise RequestException, w')
       else (Ok (Some v), w').

(** 257 distinct lookup keys. *)
Definition many_keys : list string :=
  (λ i, cache_key (str (Z.of_nat i)) false) <$> seq 0 257.

(** Two extractors, a show that is processed without trouble and a show
    whose guids cannot be read. *)
Definition sample_processors : gmap string (PlexShow → Result Value) :=
  {[ "Title" := λ s, Ok (VStr (title s));
     "Year" := λ s, Ok (default (VStr "N/A") (attributes s !! "year")) ]}.

Definition healthy_show : PlexShow :=
  {| title := "Alpha";
     originalTitle := None;
     guids := Ok ["tvdb://7"; "imdb://tt0000001"];
     show_seasons := Ok [ {| seasonNumber := Some (Ok 0); leafCount := 1 |};
                          {| seasonNumber := Some (Ok 1); leafCount := 2 |} ];
     attributes := {[ "year" := VInt 2001 ]} |}.

Definition broken_show : PlexShow :=
  {| title := "Beta";
     originalTitle := None;
     guids := Raise OtherException;
     show_seasons := Ok [];
     attributes := ∅ |}.

(** ** Further models: scripted callees and the cache file *)

(** A function under the retry decorator whose outcome depends on how many
    requests were sent before the call; every call sends one. *)
Definition scripted {A} (outcomes : nat → Result (option A)) : M (option A) :=
  λ w, (outcomes (requests w),
        {| cache := cache w; clock := clock w;
           requests := S (requests w); sleeps := sleeps w |}).

(** The delays of [k] retries from the delay [delay] on, latest first, as
    [time_sleep] logs them. *)
Fixpoint backoff_delays (delay backoff_factor : Z) (k : nat) : list Z :=
  match k with
  | O => []
  | S k' => backoff_delays (delay * backoff_factor) backoff_factor k' ++ [delay]
  end.

Definition total_delay (delays : list Z) : Z := foldr Z.add 0 delays.

(** How many of the listed episodes carry the season number [season_num]. *)
Definition episodes_in_season (episodes : list (option Z)) (season_num : Z) : Z :=
  Z.of_nat (length (filter (λ episode, episode = Some season_num) episodes)).

(** An entry as the cache file holds it: a dictionary that may lack the key
    ['timestamp'] or the key ['data']. *)
Record RawCacheEntry := {
  raw_timestamp : option Z;
  raw_data : option (option TVMazeShowInfo)
}.

(** What [load_tvmaze_cache] finds on disk. *)
Inductive CacheFileState :=
  | NoCacheFile            (* os.path.exists(TVMAZE_CACHE_FILE) is false *)
  | UnreadableCacheFile    (* open or pickle.load raises *)
  | ForeignObject          (* an object that is no dict with 'version' and 'entries' *)
  | CacheFileData (version : string) (entries : gmap string RawCacheEntry)
                  (saved_at : Z).

(** The test on one entry of the file and the entry kept for it. *)
Definition valid_entry (now : Z) (raw : RawCacheEntry) : option CacheEntry :=
  match raw_timestamp raw, raw_data raw with
  | Some ts, Some d =>
    if age_days now ts <=? TVMAZE_CACHE_MAX_AGE_DAYS
    then Some {| timestamp := ts; data := d |}
    else None
  | _, _ => None
  end.

Definition load_tvmaze_cache (file : CacheFileState) (now : Z)
    : gmap string CacheEntry :=
  match file with
  | CacheFileData _ entries _ => omap (valid_entry now) entries
  | _ => ∅
  end.

(** The file [save_tvmaze_cache] writes when the write succeeds. *)
Definition save_tvmaze_cache (c : gmap string CacheEntry) (now : Z)
    : CacheFileState :=
  CacheFileData "1.0"
    ((λ entry, {| raw_timestamp := Some (timestamp entry);
                  raw_data := Some (data entry) |}) <$> c)
    now.

(** ** Further models: strings, configuration and the report row *)

(** Whether [sep] occurs in [s]. *)
Fixpoint occurs_in (sep s : string) : bool :=
  match s with
  | EmptyString => String.prefix sep s
  | String _ s' => String.prefix sep s || occurs_in sep s'
  end.

(** [[field.strip() for field in text.split(',') if field.strip()]] *)
Definition parse_field_list (text : string) : list string :=
  filter (λ field, field ≠ "") (strip <$> split "," text).

(** [SELECTED_SHOW_FIELDS] as the module computes it from the value of
    [PLEX_SHOW_EXPORT_FIELDS], if the variable is set.  An empty value is
    false and gives the defaults, as the empty list of names does. *)
Definition selected_show_fields (user_defined_show_fields_str : option string)
    : list string :=
  select_show_fields (parse_field_list <$> user_defined_show_fields_str).

(** The configuration [validate_environment] looks at.  [export_dir_is_abs]
    is what [os.path.isabs] says of the export directory. *)
Record Environment := {
  PLEX_URL : option string;
  PLEX_TOKEN : option string;
  PLEX_EXPORT_DIR : string;
  export_dir_is_abs : bool;
  user_defined_movie_fields_str : option string;
  user_defined_show_fields_str : option string
}.

Definition ALL_POSSIBLE_MOVIE_FIELDS : list string :=
  [ "Title"; "Year"; "Studio"; "ContentRating";
    "Video Resolution"; "Bitrate (kbps)"; "File Path"; "Container";
    "Duration (min)";
    "AddedAt"; "LastViewedAt"; "OriginallyAvailableAt"; "Summary"; "Tagline";
    "AudienceRating"; "Rating"; "Collections"; "Genres"; "Labels";
    "AspectRatio"; "AudioChannels"; "AudioCodec"; "VideoCodec"; "VideoFrameRate";
    "Height"; "Width"; "ViewCount"; "SkipCount" ].

(** [text and not any(field in possible for field in <the names of text>)] *)
Definition no_valid_field (possible : list string) (text : option string) : bool :=
  match text with
  | Some text =>
    negb (String.eqb text "")
    && negb (existsb (λ field, bool_decide (field ∈ possible))
                     (parse_field_list text))
  | None => false
  end.

(** The lists [(errors, warnings)]. *)
Definition validate_environment (env : Environment) : list string * list string :=
  let errors1 :=
    if negb (truthy (PLEX_URL env)) then ["PLEX_URL is required"]
    else if negb (String.prefix "http://" (default "" (PLEX_URL env))
                  || String.prefix "https://" (default "" (PLEX_URL env)))
    then ["PLEX_URL must start with http:// or https://"]
    else [] in
  let errors2 :=
    if negb (truthy (PLEX_TOKEN env)) then ["PLEX_TOKEN is required"] else [] in
  let warnings1 :=
    if truthy (PLEX_TOKEN env)
       && (len (default "" (PLEX_TOKEN env)) <? 10)%nat
    then ["PLEX_TOKEN seems too short, verify it's correct"] else [] in
  let warnings2 :=
    if negb (String.eqb (PLEX_EXPORT_DIR env) "") && negb (export_dir_is_abs env)
    then ["PLEX_EXPORT_DIR should be an absolute path for clarity"] else [] in
  let warnings3 :=
    if no_valid_field ALL_POSSIBLE_MOVIE_FIELDS (user_defined_movie_fields_str env)
    then ["PLEX_MOVIE_EXPORT_FIELDS contains no valid fields, using defaults"]
    else [] in
  let warnings4 :=
    if no_valid_field ALL_POSSIBLE_SHOW_FIELDS (user_defined_show_fields_str env)
    then ["PLEX_SHOW_EXPORT_FIELDS contains no valid fields, using defaults"]
    else [] in
  (errors1 ++ errors2, warnings1 ++ warnings2 ++ warnings3 ++ warnings4).

(** The keys of [STYLES['alignments']]. *)
Inductive Alignment := center | left_aligned | summary.

(** A cell of the sheet after [apply_cell_styling]. *)
Record Cell := {
  cell_value : Value;
  cell_fill : option PatternFill;
  cell_alignment : Alignment
}.

Definition base_alignment (field_name : string) : Alignment :=
  if bool_decide (field_name ∈ ["Summary"; "Tagline"]) then summary
  else if bool_decide
            (field_name ∈ ["Title"; "Studio"; "Collections"; "Genres"; "Labels"])
  then left_aligned
  else center.

(** The cells of the base fields: [show_info_full.get(field_name, 'N/A')],
    a number as it is and a string as itself. *)
Definition base_cells (SELECTED_SHOW_FIELDS : list string)
    (show_info_full : ShowData) : list Cell :=
  (λ field_name,
     {| cell_value := default (VStr "N/A") (fields show_info_full !! field_name);
        cell_fill := None;
        cell_alignment := base_alignment field_name |})
  <$> SELECTED_SHOW_FIELDS.

Definition styled_cell (text_and_fill : string * option PatternFill) : Cell :=
  {| cell_value := VStr text_and_fill.1;
     cell_fill := text_and_fill.2;
     cell_alignment := center |}.

(** The cells [_write_tv_show_row] writes, from the first column on; [None]
    when [int] raises on a season header. *)
Definition _write_tv_show_row (SELECTED_SHOW_FIELDS : list string)
    (show_info_full : ShowData) (season_headers_list : list string)
    : option (list Cell) :=
  cells ← season_cells show_info_full season_headers_list;
  Some (base_cells SELECTED_SHOW_FIELDS show_info_full
        ++ [styled_cell (_calculate_series_completion
                           (tvmaze_info show_info_full)
                           (seasons_in_plex show_info_full))]
        ++ (styled_cell <$> cells.*2)).

(** The season numbers that get a column: 0 when some show has local
    specials, then 1 to the overall maximum. *)
Definition season_columns (shows_data_full : list ShowData)
    (max_seasons_overall : Z) : list Z :=
  (if has_specials shows_data_full then [0] else [])
  ++ seqZ 1 max_seasons_overall.

(** A service that knows show 42 by title only. *)
Definition title_only_server : nat → Request → Reply :=
  λ _ req,
    match req with
    | LookupShows _ => ShowFound None
    | SearchShows _ => ShowFound (Some 42)
    | ShowEpisodes _ => EpisodeList [Some 1; Some 1; Some 2; None]
    end.

(** ** Further models: movies *)

Record PlexPart := { part_attributes : gmap string Value }.

Record PlexMedia := {
  media_parts : list PlexPart;
  media_attributes : gmap string Value
}.

(** A movie as Plex reports it; [movie_media] is what reading [movie.media]
    yields. *)
Record PlexMovie := {
  movie_media : Result (list PlexMedia);
  movie_attributes : gmap string Value
}.

Definition media_dependent_fields : list string :=
  [ "Video Resolution"; "Bitrate (kbps)"; "File Path"; "Container";
    "AspectRatio"; "AudioChannels"; "AudioCodec"; "VideoCodec";
    "VideoFrameRate"; "Height"; "Width" ].

(** [any(field in SELECTED_MOVIE_FIELDS for field in media_dependent_fields)] *)
Definition needs_media (SELECTED_MOVIE_FIELDS : list string) : bool :=
  existsb (λ field, bool_decide (field ∈ SELECTED_MOVIE_FIELDS))
          media_dependent_fields.

Section MovieProcessing.
(** [_get_movie_field_processors()]: each extractor takes the movie, its
    first media and the first part of that media. *)
Variable movie_field_processors
  : gmap string (PlexMovie → option PlexMedia → option PlexPart → Result Value).
Variable SELECTED_MOVIE_FIELDS : list string.

(** The media and the parts are read before the loop over the fields, outside
    of any handler. *)
Definition process_movie (movie : PlexMovie) : Result (gmap string Value) :=
  let media_and_parts :=
    if needs_media SELECTED_MOVIE_FIELDS then
      match movie_media movie with
      | Ok l =>
        let media := head l in
        Ok (media, media ≫= λ m, head (media_parts m))
      | Raise e => Raise e
      end
    else Ok (None, None) in
  match media_and_parts with
  | Ok (media, parts) =>
    Ok (foldl (λ movie_data field_name,
                 let value :=
                   match movie_field_processors !! field_name with
                   | Some processor =>
                     match processor movie media parts with
                     | Ok value => value
                     | Raise _ => VStr "Error Processing Field"
                     end
                   | None => VStr "N/A"
                   end in
                 <[field_name := value]> movie_data)
              ∅ SELECTED_MOVIE_FIELDS)
  | Raise e => Raise e
  end.

(** [executor.map(process_movie, movies)], consumed as a list: the first
    exception of a worker is raised to the caller. *)
Fixpoint executor_map_movies (movies : list PlexMovie)
    : Result (list (gmap string Value)) :=
  match movies with
  | [] => Ok []
  | movie :: rest =>
    match process_movie movie with
    | Ok movie_data =>
      match executor_map_movies rest with
      | Ok others => Ok (movie_data :: others)
      | Raise e => Raise e
      end
    | Raise e => Raise e
    end
  end.

(** [list(filter(None, ...))] drops the empty dictionaries.  The number of
    workers is never 0 here. *)
Definition get_movie_details (movies : list PlexMovie)
    : Result (list (gmap string Value)) :=
  match executor_map_movies movies with
  | Ok results => Ok (filter (λ movie_data, movie_data ≠ ∅) results)
  | Raise e => Raise e
  end.
End MovieProcessing.

(** Two movies, the second with media that cannot be read. *)
Definition readable_movie : PlexMovie :=
  {| movie_media := Ok [ {| media_parts := []; media_attributes := ∅ |} ];
     movie_attributes := {[ "title" := VStr "Gamma" ]} |}.

Definition unreadable_movie : PlexMovie :=
  {| movie_media := Raise OtherException;
     movie_attributes := {[ "title" := VStr "Delta" ]} |}.

Definition sample_movie_processors
  : gmap string (PlexMovie → option PlexMedia → option PlexPart → Result Value) :=
  {[ "Title" := λ m _ _, Ok (default (VStr "N/A") (movie_attributes m !! "title"));
     "Container" := λ _ media _,
       Ok (default (VStr "Unknown")
             (media ≫= λ md, media_attributes md !! "container")) ]}.

(** * Properties *)

(** ** Per-season classification *)

Example season_cell_scenario :
  _calculate_season_cell 1 (Some remote_two_seasons) (plex_of [(1, 10); (2, 5)])
    = ("10/10", Some green)
  ∧ _calculate_season_cell 2 (Some remote_two_seasons) (plex_of [(1, 10); (2, 5)])
    = ("5/8", Some red)
  ∧ _calculate_season_cell 1 None (plex_of [(1, 3)]) = ("3/?", Some yellow)
  ∧ _calculate_series_completion (Some remote_two_seasons) (plex_of [(1, 10); (2, 5)])
    = ("1/2", Some red).
Proof. vm_compute. done. Qed.

Lemma seasons_nonempty_of_lookup (info : TVMazeShowInfo) k tv :
  seasons info !! k = Some tv → seasons info ≠ ∅.
Proof. intros H He. rewrite He in H. by rewrite lookup_empty in H. Qed.

(** C1: a season whose remote entry has a positive episode count is COMPLETE
    (green, text local/remote) when the local count reaches the remote count,
    PARTIAL (red) when the local count is positive but smaller, and EMPTY (no
    fill) when the local count is 0. *)
Theorem season_cell_remote_positive (season_num : Z) (info : TVMazeShowInfo)
    (plex_seasons_data : gmap Z PlexSeasonData) (tv : TVMazeSeasonInfo) :
  seasons info !! season_num = Some tv →
  0 < total_episodes tv →
  (total_episodes tv ≤ plex_episode_count plex_seasons_data season_num →
   _calculate_season_cell season_num (Some info) plex_seasons_data
   = (str (plex_episode_count plex_seasons_data season_num) +:+ "/"
        +:+ str (total_episodes tv), Some green))
  ∧ (0 < plex_episode_count plex_seasons_data season_num < total_episodes tv →
     _calculate_season_cell season_num (Some info) plex_seasons_data
     = (str (plex_episode_count plex_seasons_data season_num) +:+ "/"
          +:+ str (total_episodes tv), Some red))
  ∧ (plex_episode_count plex_seasons_data season_num = 0 →
     _calculate_season_cell season_num (Some info) plex_seasons_data
     = (str 0 +:+ "/" +:+ str (total_episodes tv), None)).
Proof.
  intros Hlook Hpos. unfold _calculate_season_cell.
  rewrite bool_decide_true by (by eapply seasons_nonempty_of_lookup).
  rewrite Hlook. cbv zeta.
  destruct (Z.eqb_spec (total_episodes tv) 0) as [E|_]; [lia|].
  repeat split.
  - intros Hge.
    destruct (Z.geb_spec (plex_episode_count plex_seasons_data season_num)
                         (total_episodes tv)); [done | lia].
  - intros [Hlo Hhi].
    destruct (Z.geb_spec (plex_episode_count plex_seasons_data season_num)
                         (total_episodes tv)); [lia|].
    destruct (Z.gtb_spec (plex_episode_count plex_seasons_data season_num) 0);
      [done | lia].
  - intros ->.
    destruct (Z.geb_spec 0 (total_episodes tv)); [lia|].
    done.
Qed.

Lemma season_cell_remote_positive_witness :
  _calculate_season_cell 2 (Some remote_two_seasons) (plex_of [(1, 10); (2, 5)])
  = ("5/8", Some red).
Proof.
  refine (proj1 (proj2 (season_cell_remote_positive 2 remote_two_seasons
                          (plex_of [(1, 10); (2, 5)]) {| total_episodes := 8 |}
                          _ _)) _).
  - reflexivity.
  - reflexivity.
  - split; reflexivity.
Defined.

(** [max_key] stays below any bound that the default and all the keys stay
    below. *)
Lemma foldr_max_lt (n k : Z) (ks : list Z) :
  k < n → Forall (λ j, j < n) ks → foldr Z.max k ks < n.
Proof.
  intros Hk. induction 1 as [|j ks Hj _ IH]; simpl; [done | lia].
Qed.

Lemma max_key_lt {A} (d : gmap Z A) (dflt n : Z) :
  dflt < n → (∀ k, k ∈ dom d → k < n) → max_key d dflt < n.
Proof.
  intros Hd Hall. unfold max_key.
  assert (Forall (λ j, j < n) (map_to_list d).*1) as HF.
  { apply Forall_forall. intros k Hk. apply Hall.
    apply elem_of_dom. apply list_elem_of_fmap in Hk as [[k' a] [-> Hin]].
    apply elem_of_map_to_list in Hin. by exists a. }
  destruct ((map_to_list d).*1) as [|k ks]; [done|].
  apply Forall_cons in HF as [Hk HF]. by apply foldr_max_lt.
Qed.

(** What the cell is when the remote has no entry for the season. *)
Lemma season_cell_no_entry_with_seasons (season_num : Z) (info : TVMazeShowInfo)
    (plex_seasons_data : gmap Z PlexSeasonData) :
  seasons info ≠ ∅ →
  seasons info !! season_num = None →
  _calculate_season_cell season_num (Some info) plex_seasons_data
  = if plex_episode_count plex_seasons_data season_num >? 0
    then (str (plex_episode_count plex_seasons_data season_num) +:+ "/?", Some yellow)
    else ("", Some gray).
Proof.
  intros Hne Hnone. unfold _calculate_season_cell.
  by rewrite bool_decide_true, Hnone.
Qed.

Lemma season_cell_no_seasons (season_num : Z) (tvmaze_info : option TVMazeShowInfo)
    (plex_seasons_data : gmap Z PlexSeasonData) :
  (∀ info, tvmaze_info = Some info → seasons info = ∅) →
  _calculate_season_cell season_num tvmaze_info plex_seasons_data
  = if plex_episode_count plex_seasons_data season_num >? 0
    then (str (plex_episode_count plex_seasons_data season_num) +:+ "/?", Some yellow)
    else if season_num >? max_key plex_seasons_data (-1)
    then ("", Some gray)
    else ("", None).
Proof.
  intros Hempty. unfold _calculate_season_cell.
  destruct tvmaze_info as [info|]; [|done].
  rewrite bool_decide_false; [done|].
  intros Hne. apply Hne. by apply Hempty.
Qed.

(** C5, as the code has it: for a season with no remote entry, a positive
    local count gives the text localCount/? on the yellow (attention) fill;
    a local count of 0 gives an empty text, on gray when the remote info lists
    seasons, and otherwise on gray beyond the highest local season and on no
    fill up to it; the cell is never green.  With no remote info, every season
    beyond the highest local season is gray with an empty text. *)
Theorem season_cell_remote_unknown (season_num : Z)
    (tvmaze_info : option TVMazeShowInfo)
    (plex_seasons_data : gmap Z PlexSeasonData) :
  remote_entry tvmaze_info season_num = None →
  (0 < plex_episode_count plex_seasons_data season_num →
   _calculate_season_cell season_num tvmaze_info plex_seasons_data
   = (str (plex_episode_count plex_seasons_data season_num) +:+ "/?", Some yellow))
  ∧ (plex_episode_count plex_seasons_data season_num ≤ 0 →
     (∀ info, tvmaze_info = Some info → seasons info ≠ ∅ →
      _calculate_season_cell season_num tvmaze_info plex_seasons_data
      = ("", Some gray))
     ∧ ((∀ info, tvmaze_info = Some info → seasons info = ∅) →
        _calculate_season_cell season_num tvmaze_info plex_seasons_data
        = ("", if season_num >? max_key plex_seasons_data (-1)
               then Some gray else None)))
  ∧ (_calculate_season_cell season_num tvmaze_info plex_seasons_data).2 ≠ Some green
  ∧ (tvmaze_info = None → 0 ≤ season_num →
     (∀ k, k ∈ dom plex_seasons_data → k < season_num) →
     _calculate_season_cell season_num tvmaze_info plex_seasons_data
     = ("", Some gray)).
Proof.
  intros Hentry.
  assert (_calculate_season_cell season_num tvmaze_info plex_seasons_data
          = if plex_episode_count plex_seasons_data season_num >? 0
            then (str (plex_episode_count plex_seasons_data season_num) +:+ "/?",
                  Some yellow)
            else if match tvmaze_info with
                    | Some info => bool_decide (seasons info ≠ ∅)
                    | None => false
                    end
            then ("", Some gray)
            else if season_num >? max_key plex_seasons_data (-1)
            then ("", Some gray) else ("", None)) as Hcell.
  { destruct tvmaze_info as [info|]; simpl in Hentry.
    - destruct (decide (seasons info = ∅)) as [He|Hne].
      + rewrite (season_cell_no_seasons _ (Some info)) by congruence.
        by rewrite bool_decide_false by (intros Hn; by apply Hn).
      + rewrite season_cell_no_entry_with_seasons by done.
        rewrite bool_decide_true by done.
        by destruct (_ >? 0).
    - by rewrite season_cell_no_seasons by done. }
  rewrite Hcell. clear Hcell.
  destruct (Z.gtb_spec (plex_episode_count plex_seasons_data season_num) 0)
    as [Hpos|Hzero].
  - split; [done|]. split; [lia|]. split; [done|].
    intros _ _ Hbeyond. exfalso.
    unfold plex_episode_count in Hpos.
    destruct (plex_seasons_data !! season_num) as [p|] eqn:Hp; simpl in Hpos; [|lia].
    specialize (Hbeyond season_num). rewrite elem_of_dom, Hp in Hbeyond.
    specialize (Hbeyond (mk_is_Some _ _ eq_refl)). lia.
  - split; [lia|]. split; [|split].
    + intros _. split.
      * intros info -> Hne. by rewrite bool_decide_true.
      * intros Hempty. destruct tvmaze_info as [info|]; [|by destruct (_ >? _)].
        rewrite bool_decide_false; [by destruct (_ >? _)|].
        intros Hne. apply Hne. by apply Hempty.
    + destruct tvmaze_info as [info|]; repeat case_match; simpl; congruence.
    + intros -> Hnonneg Hbeyond.
      pose proof (max_key_lt plex_seasons_data (-1) season_num
                    ltac:(lia) Hbeyond) as Hlt.
      destruct (Z.gtb_spec season_num (max_key plex_seasons_data (-1)));
        [done | lia].
Qed.

Lemma season_cell_remote_unknown_witness :
  _calculate_season_cell 3 (Some remote_two_seasons) (plex_of [(3, 4)])
  = ("4/?", Some yellow).
Proof.
  refine (proj1 (season_cell_remote_unknown 3 (Some remote_two_seasons)
                   (plex_of [(3, 4)]) _) _).
  - reflexivity.
  - reflexivity.
Defined.

(** C5 as stated fails when the local count is 0: the remote info lists
    seasons 1 and 2 only, season 3 has no remote entry and no local episodes,
    and the cell is empty on gray, not 0/? on an attention fill. *)
Lemma season_cell_remote_unknown_counterexample :
  remote_entry (Some remote_two_seasons) 3 = None
  ∧ _calculate_season_cell 3 (Some remote_two_seasons) (plex_of [(1, 10)])
    = ("", Some gray)
  ∧ (_calculate_season_cell 3 (Some remote_two_seasons) (plex_of [(1, 10)])).1
    ≠ str (plex_episode_count (plex_of [(1, 10)]) 3) +:+ "/?"
  ∧ needs_attention
      (_calculate_season_cell 3 (Some remote_two_seasons) (plex_of [(1, 10)])).2
    = false.
Proof. vm_compute. repeat split; congruence. Qed.

(** ** Overall series classification *)

(** The counting loop adds, to the count it starts from, the number of items
    that pass its test. *)
Lemma count_complete_fold (plex_seasons_data : gmap Z PlexSeasonData)
    (items : list (Z * TVMazeSeasonInfo)) (count : Z) :
  Forall (λ kv, 0 ≤ kv.1) items →
  fold_left (count_complete_step plex_seasons_data) items count
  = count + Z.of_nat (length (filter
      (λ kv : Z * TVMazeSeasonInfo,
         0 < kv.1
         ∧ total_episodes kv.2 ≤ plex_episode_count plex_seasons_data kv.1
         ∧ 0 < total_episodes kv.2) items)).
Proof.
  intros Hall. revert count.
  induction Hall as [|[k tv] items Hk _ IH]; intros count; simpl in *.
  { lia. }
  rewrite IH. clear IH. unfold plex_episode_count.
  rewrite filter_cons. simpl.
  destruct (Z.eqb_spec k 0) as [->|Hk0].
  { rewrite decide_False by lia. lia. }
  destruct (plex_seasons_data !! k) as [p|]; simpl.
  - destruct (Z.geb_spec (episodes_in_plex p) (total_episodes tv));
      destruct (Z.gtb_spec (total_episodes tv) 0); simpl;
      (rewrite decide_True by lia; simpl; lia)
      || (rewrite decide_False by lia; lia).
  - destruct (decide (0 < total_episodes tv)).
    + rewrite decide_False by lia. lia.
    + rewrite decide_False by lia. lia.
Qed.

Lemma filter_and_length_le {A} (P Q : A → Prop)
    `{∀ x, Decision (P x)} `{∀ x, Decision (P x ∧ Q x)} (l : list A) :
  (length (filter (λ x, P x ∧ Q x) l) ≤ length (filter P l))%nat.
Proof.
  induction l as [|x l IH]; [done|].
  rewrite !filter_cons.
  destruct (decide (P x ∧ Q x)) as [[HP _]|Hn].
  - rewrite decide_True by done. simpl. lia.
  - destruct (decide (P x)); simpl; lia.
Qed.

Lemma remote_keys_nonneg (info : TVMazeShowInfo) :
  (∀ k, k ∈ dom (seasons info) → 0 ≤ k) →
  Forall (λ kv : Z * TVMazeSeasonInfo, 0 ≤ kv.1) (map_to_list (seasons info)).
Proof.
  intros Hall. apply Forall_forall. intros [k tv] Hin. simpl.
  apply Hall, elem_of_dom. apply elem_of_map_to_list in Hin. by exists tv.
Qed.

(** The code and the specification count the same numerator. *)
Lemma series_completion_some (info : TVMazeShowInfo)
    (plex_seasons_data : gmap Z PlexSeasonData) :
  (∀ k, k ∈ dom (seasons info) → 0 ≤ k) →
  _calculate_series_completion (Some info) plex_seasons_data
  = (str (complete_regular_seasons info plex_seasons_data) +:+ "/"
       +:+ str (count_regular (seasons info)),
     if count_regular (seasons info) =? 0 then Some gray
     else if complete_regular_seasons info plex_seasons_data
             >=? count_regular (seasons info) then Some green
     else if complete_regular_seasons info plex_seasons_data >? 0 then Some red
     else None).
Proof.
  intros Hall. unfold _calculate_series_completion. cbv zeta.
  rewrite count_complete_fold by (by apply remote_keys_nonneg).
  by rewrite Z.add_0_l.
Qed.

Lemma complete_regular_seasons_bounds (info : TVMazeShowInfo)
    (plex_seasons_data : gmap Z PlexSeasonData) :
  0 ≤ complete_regular_seasons info plex_seasons_data
    ≤ count_regular (seasons info).
Proof.
  unfold complete_regular_seasons, count_regular. split; [lia|].
  apply inj_le.
  apply (filter_and_length_le (λ kv : Z * TVMazeSeasonInfo, 0 < kv.1)
           (λ kv, total_episodes kv.2 ≤ plex_episode_count plex_seasons_data kv.1
                  ∧ 0 < total_episodes kv.2)).
Qed.

(** C4, as the code has it.  With the remote season numbers non-negative,
    numerator the number of remote regular seasons whose local count reaches
    a positive remote count and denominator the number of remote regular
    seasons: the text is numerator/denominator; the fill is gray (NEUTRAL)
    for a denominator 0, green (COMPLETE) when the numerator equals a positive
    denominator, red (PARTIAL) for a numerator strictly between 0 and the
    denominator, and absent, with no attention mark, for a numerator 0 under
    a positive denominator.  Without remote info the text is
    localRegularSeasonCount/?, yellow (attention) exactly when that count is
    positive, and never green. *)
Theorem series_completion_classification (info : TVMazeShowInfo)
    (plex_seasons_data : gmap Z PlexSeasonData) :
  (∀ k, k ∈ dom (seasons info) → 0 ≤ k) →
  ((_calculate_series_completion (Some info) plex_seasons_data).1
   = str (complete_regular_seasons info plex_seasons_data) +:+ "/"
       +:+ str (count_regular (seasons info))
   ∧ (count_regular (seasons info) = 0 →
      (_calculate_series_completion (Some info) plex_seasons_data).2 = Some gray)
   ∧ (0 < count_regular (seasons info) →
      complete_regular_seasons info plex_seasons_data
      = count_regular (seasons info) →
      (_calculate_series_completion (Some info) plex_seasons_data).2 = Some green)
   ∧ (0 < complete_regular_seasons info plex_seasons_data
        < count_regular (seasons info) →
      (_calculate_series_completion (Some info) plex_seasons_data).2 = Some red)
   ∧ (complete_regular_seasons info plex_seasons_data = 0 →
      0 < count_regular (seasons info) →
      (_calculate_series_completion (Some info) plex_seasons_data).2 = None
      ∧ needs_attention
          (_calculate_series_completion (Some info) plex_seasons_data).2 = false))
  ∧ ((_calculate_series_completion None plex_seasons_data).1
     = str (count_regular plex_seasons_data) +:+ "/?"
     ∧ (needs_attention (_calculate_series_completion None plex_seasons_data).2
        = true ↔ 0 < count_regular plex_seasons_data)
     ∧ ((_calculate_series_completion None plex_seasons_data).2 = Some yellow
        ↔ 0 < count_regular plex_seasons_data)
     ∧ (_calculate_series_completion None plex_seasons_data).2 ≠ Some green).
Proof.
  intros Hall. split.
  - rewrite series_completion_some by done. simpl.
    pose proof (complete_regular_seasons_bounds info plex_seasons_data) as Hb.
    set (num := complete_regular_seasons info plex_seasons_data) in *.
    set (den := count_regular (seasons info)) in *.
    split; [done|].
    destruct (Z.eqb_spec den 0) as [Hd|Hd];
      destruct (Z.geb_spec num den) as [Hg|Hg];
      destruct (Z.gtb_spec num 0) as [Hn|Hn];
      repeat split; intros; try done; try lia.
  - unfold _calculate_series_completion. cbv zeta. simpl.
    destruct (Z.gtb_spec (count_regular plex_seasons_data) 0) as [Hn|Hn]; simpl.
    + repeat split; intros; try done; lia.
    + repeat split; intros; try done; lia.
Qed.

Lemma series_completion_classification_witness :
  (_calculate_series_completion (Some remote_two_seasons)
     (plex_of [(1, 10); (2, 5)])).2 = Some red.
Proof.
  refine (proj1 (proj2 (proj2 (proj2 (proj1
            (series_completion_classification remote_two_seasons
               (plex_of [(1, 10); (2, 5)]) _))))) _).
  - intros k Hk. apply elem_of_dom in Hk as [tv Hk].
    destruct (decide (k = 1)) as [->|?]; [done|].
    destruct (decide (k = 2)) as [->|?]; [done|].
    exfalso. unfold remote_two_seasons in Hk. simpl in Hk.
    rewrite lookup_insert_ne in Hk by done.
    by rewrite lookup_singleton_ne in Hk.
  - vm_compute. split; reflexivity.
Defined.

(** C4 as stated fails for a numerator 0 under existing remote info: remote
    season 1 has ten episodes, the local library has none, and the series
    cell is 0/1 with no fill at all, not an attention mark. *)
Lemma series_completion_counterexample :
  _calculate_series_completion
    (Some {| total_seasons := 1; seasons := {[ 1 := {| total_episodes := 10 |} ]} |})
    ∅ = ("0/1", None)
  ∧ needs_attention
      (_calculate_series_completion
         (Some {| total_seasons := 1;
                  seasons := {[ 1 := {| total_episodes := 10 |} ]} |}) ∅).2
    = false.
Proof. vm_compute. done. Qed.

(** Why the season numbers are taken non-negative: the loop skips season 0
    only, the denominator counts the seasons above 0, so a negative remote
    season number could be counted as complete without being counted as a
    season. *)
Example series_completion_negative_season :
  _calculate_series_completion
    (Some {| total_seasons := 0; seasons := {[ -1 := {| total_episodes := 5 |} ]} |})
    (plex_of [(-1, 5)]) = ("1/0", Some gray).
Proof. vm_compute. reflexivity. Qed.

(** ** Lookup cache *)

Lemma age_days_within (now ts : Z) :
  now - ts < TVMAZE_CACHE_MAX_AGE_DAYS * microseconds_per_day →
  age_days now ts ≤ TVMAZE_CACHE_MAX_AGE_DAYS.
Proof.
  unfold age_days, TVMAZE_CACHE_MAX_AGE_DAYS, microseconds_per_day,
    microseconds_per_second.
  intros H. apply Z.lt_le_incl. apply Z.div_lt_upper_bound; lia.
Qed.

(** A read after a write of the same key depends on the age of the entry
    only. *)
Lemma get_after_add (key : string) (value : option TVMazeShowInfo)
    (put_time get_time : Z) (c : gmap string CacheEntry) :
  get_from_cache key get_time (add_to_cache key value put_time c)
  = if age_days get_time put_time >? TVMAZE_CACHE_MAX_AGE_DAYS
    then (None, delete key c)
    else (value, add_to_cache key value put_time c).
Proof.
  unfold get_from_cache, add_to_cache.
  rewrite lookup_insert_eq. simpl.
  by rewrite delete_insert_eq.
Qed.

(** C6: a value put under a key, a show info or the absent marker, is what
    the next read of the key returns, unchanged, while the age of the entry
    in days does not exceed the 30-day maximum; the read leaves the cache as
    it is. *)
Theorem cache_round_trip (key : string) (value : option TVMazeShowInfo)
    (put_time get_time : Z) (c : gmap string CacheEntry) :
  age_days get_time put_time ≤ TVMAZE_CACHE_MAX_AGE_DAYS →
  get_from_cache key get_time (add_to_cache key value put_time c)
  = (value, add_to_cache key value put_time c).
Proof.
  intros Hage. rewrite get_after_add.
  destruct (Z.gtb_spec (age_days get_time put_time) TVMAZE_CACHE_MAX_AGE_DAYS);
    [lia | done].
Qed.

Lemma cache_round_trip_witness :
  get_from_cache "imdb:tt0000001" 5 (add_to_cache "imdb:tt0000001" None 0 ∅)
  = (None, add_to_cache "imdb:tt0000001" None 0 ∅).
Proof.
  apply (cache_round_trip "imdb:tt0000001" None 0 5 ∅).
  vm_compute. discriminate.
Defined.

(** The same through the world: a write followed at once by a read. *)
Lemma cache_write_then_read (key : string) (value : option TVMazeShowInfo)
    (w : World) :
  (cache_write key value ;;' cache_read key) w
  = (Ok value, with_cache (add_to_cache key value (clock w) (cache w)) w).
Proof.
  unfold bind, cache_write, cache_read. simpl.
  rewrite get_after_add.
  unfold age_days. by rewrite Z.sub_diag.
Qed.

(** An entry older than the maximum reads as a miss and is dropped. *)
Lemma cache_expiry (key : string) (value : option TVMazeShowInfo)
    (put_time get_time : Z) (c : gmap string CacheEntry) :
  TVMAZE_CACHE_MAX_AGE_DAYS < age_days get_time put_time →
  get_from_cache key get_time (add_to_cache key value put_time c)
  = (None, delete key c).
Proof.
  intros Hage. rewrite get_after_add.
  destruct (Z.gtb_spec (age_days get_time put_time) TVMAZE_CACHE_MAX_AGE_DAYS);
    [done | lia].
Qed.

(** Nothing bounds the cache: a fresh key adds an entry whatever the size. *)
Lemma add_to_cache_size (key : string) (value : option TVMazeShowInfo)
    (now : Z) (c : gmap string CacheEntry) :
  c !! key = None → size (add_to_cache key value now c) = S (size c).
Proof. intros H. unfold add_to_cache. by apply map_size_insert_None. Qed.

(** C7 fails on the code: 257 insertions under distinct keys leave 257
    entries, one more than [TVMAZE_CACHE_SIZE]; nothing is evicted, the first
    key inserted is still there. *)
Theorem cache_exceeds_capacity :
  Z.of_nat (size (foldl (λ c key, add_to_cache key (Some show_42) 0 c) ∅ many_keys))
  = TVMAZE_CACHE_SIZE + 1
  ∧ is_Some (foldl (λ c key, add_to_cache key (Some show_42) 0 c) ∅ many_keys
             !! "title:0").
Proof.
  split.
  - vm_compute. reflexivity.
  - vm_compute. eexists. reflexivity.
Qed.

(** ** Retry and the remote fetch *)

(** A first attempt that returns ends the retry loop at once. *)
Lemma retry_on_failure_first_ok {A} (max_retries : nat) (base_delay backoff_factor : Z)
    (func : M (option A)) (w w' : World) (v : option A) :
  func w = (Ok v, w') →
  retry_on_failure max_retries base_delay backoff_factor func w = (Ok v, w').
Proof.
  intros Hf. unfold retry_on_failure.
  rewrite Nat.add_1_r. simpl. by rewrite Hf.
Qed.

(** The decorator on its own does what it says: two failures, then success,
    cost two sleeps of 1 and 2 seconds and three calls; a function that keeps
    failing is called four times, after sleeps of 1, 2 and 4 seconds, and the
    exception is raised again. *)
Example retry_on_failure_recovers :
  retry_on_failure TVMAZE_MAX_RETRIES TVMAZE_RETRY_DELAY 2 (fails_first 2 7) fresh_world
  = (Ok (Some 7),
     {| cache := ∅; clock := 3000000; requests := 3; sleeps := [2; 1] |}).
Proof. vm_compute. reflexivity. Qed.

Example retry_on_failure_gives_up :
  retry_on_failure TVMAZE_MAX_RETRIES TVMAZE_RETRY_DELAY 2 (fails_first 9 7) fresh_world
  = (Raise RequestException,
     {| cache := ∅; clock := 7000000; requests := 4; sleeps := [4; 2; 1] |}).
Proof. vm_compute. reflexivity. Qed.

Section RemoteCatalogFacts.
Variable server : nat → Request → Reply.

(** The function under the decorator handles every exception itself: it
    always returns, after one or two requests, and touches nothing else. *)
Lemma fetch_undecorated_returns (search_term : string) (is_imdb_id : bool)
    (w : World) :
  ∃ (r : option TVMazeShowInfo) (n : nat),
    fetch_undecorated server search_term is_imdb_id w
    = (Ok r, {| cache := cache w; clock := clock w;
                requests := n; sleeps := sleeps w |})
    ∧ (requests w < n ≤ requests w + 2)%nat.
Proof.
  unfold fetch_undecorated, try_except, fetch_try_block, bind, session_get,
    raise, ret.
  destruct (server (requests w) _) as [| |[id|]|l]; simpl;
    try (eexists _, _; split; [reflexivity | lia]).
  destruct (id =? 0); simpl;
    try (eexists _, _; split; [reflexivity | lia]).
  destruct (server (S (requests w)) _) as [| |id'|[|ep eps]]; simpl;
    try (eexists _, _; split; [reflexivity | lia]).
  case_bool_decide; eexists _, _; (split; [reflexivity | lia]).
Qed.

(** So the decorated function is the undecorated one: the retry loop never
    sees an exception, never sleeps and never calls a second time. *)
Lemma fetch_never_retries (search_term : string) (is_imdb_id : bool)
    (w : World) :
  _fetch_tvmaze_show_info_from_api server search_term is_imdb_id w
  = fetch_undecorated server search_term is_imdb_id w.
Proof.
  destruct (fetch_undecorated_returns search_term is_imdb_id w)
    as (r & n & Hf & _).
  unfold _fetch_tvmaze_show_info_from_api.
  rewrite Hf. by apply retry_on_failure_first_ok.
Qed.

Lemma fetch_effects (search_term : string) (is_imdb_id : bool) (w : World) :
  ∃ (r : option TVMazeShowInfo) (n : nat),
    _fetch_tvmaze_show_info_from_api server search_term is_imdb_id w
    = (Ok r, {| cache := cache w; clock := clock w;
                requests := n; sleeps := sleeps w |})
    ∧ (requests w < n ≤ requests w + 2)%nat.
Proof. rewrite fetch_never_retries. apply fetch_undecorated_returns. Qed.

(** A network failure of the first request is the end of the fetch: the
    result is [None] after that single request. *)
Lemma fetch_network_failure (search_term : string) (is_imdb_id : bool)
    (w : World) :
  server (requests w) (if is_imdb_id then LookupShows search_term
                       else SearchShows search_term) = NetworkFailure →
  _fetch_tvmaze_show_info_from_api server search_term is_imdb_id w
  = (Ok None, {| cache := cache w; clock := clock w;
                 requests := S (requests w); sleeps := sleeps w |}).
Proof.
  intros Hs. rewrite fetch_never_retries.
  unfold fetch_undecorated, try_except, fetch_try_block, bind, session_get.
  by rewrite Hs.
Qed.

(** A body that is not JSON is not retried either, as intended. *)
Lemma fetch_malformed_body (search_term : string) (is_imdb_id : bool)
    (w : World) :
  server (requests w) (if is_imdb_id then LookupShows search_term
                       else SearchShows search_term) = MalformedBody →
  _fetch_tvmaze_show_info_from_api server search_term is_imdb_id w
  = (Ok None, {| cache := cache w; clock := clock w;
                 requests := S (requests w); sleeps := sleeps w |}).
Proof.
  intros Hs. rewrite fetch_never_retries.
  unfold fetch_undecorated, try_except, fetch_try_block, bind, session_get.
  by rewrite Hs.
Qed.

(** A lookup that answers [None] has asked the remote service: a negative
    answer is never served from the cache, and it leaves no entry that the
    cache did not hold before. *)
Lemma negative_lookup_asks_remote (search_term : string) (is_imdb_id : bool)
    (w w' : World) :
  get_tvmaze_show_info server search_term is_imdb_id w = (Ok None, w') →
  (requests w < requests w')%nat
  ∧ cache w' = (get_from_cache (cache_key search_term is_imdb_id)
                               (clock w) (cache w)).2.
Proof.
  unfold get_tvmaze_show_info, bind, cache_read.
  destruct (get_from_cache _ _ _) as [[hit|] c] eqn:Hget; simpl.
  { unfold ret. intros [=]. }
  destruct (fetch_effects search_term is_imdb_id (with_cache c w))
    as (r & n & Hf & Hn).
  rewrite Hf. simpl in *.
  destruct r as [r|]; unfold cache_write, ret; simpl.
  { intros [=]. }
  intros [= <-]. simpl. split; [lia | done].
Qed.
End RemoteCatalogFacts.

(** C3 fails on the code: the network drops the first request and would
    deliver every later one, yet the fetch answers [None] after that single
    request, with no sleep and no second attempt; the attempt the decorator
    would have made next finds the show. *)
Theorem transient_failure_not_retried :
  _fetch_tvmaze_show_info_from_api flaky_server "tt0000001" true fresh_world
  = (Ok None, {| cache := ∅; clock := 0; requests := 1; sleeps := [] |})
  ∧ fetch_undecorated flaky_server "tt0000001" true
      {| cache := ∅; clock := 0; requests := 1; sleeps := [] |}
    = (Ok (Some show_42),
       {| cache := ∅; clock := 0; requests := 3; sleeps := [] |}).
Proof. split; vm_compute; reflexivity. Qed.

(** C2 fails on the code: a lookup of a show the service does not know
    returns [None] and leaves the cache empty, and the same lookup one second
    later sends a request again. *)
Theorem negative_result_not_cached :
  get_tvmaze_show_info empty_server "tt0000001" true fresh_world
  = (Ok None, {| cache := ∅; clock := 0; requests := 1; sleeps := [] |})
  ∧ get_tvmaze_show_info empty_server "tt0000001" true
      (later microseconds_per_second
         {| cache := ∅; clock := 0; requests := 1; sleeps := [] |})
    = (Ok None, {| cache := ∅; clock := 1000000; requests := 2; sleeps := [] |}).
Proof. split; vm_compute; reflexivity. Qed.

(** A show that is found is cached, and the next lookup sends no request. *)
Example positive_result_cached :
  get_tvmaze_show_info reliable_server "tt0000001" true fresh_world
  = (Ok (Some show_42),
     {| cache := {[ "imdb:tt0000001" := {| timestamp := 0; data := Some show_42 |} ]};
        clock := 0; requests := 2; sleeps := [] |})
  ∧ (get_tvmaze_show_info reliable_server "tt0000001" true ;;'
     get_tvmaze_show_info reliable_server "tt0000001" true) fresh_world
    = (Ok (Some show_42),
       {| cache := {[ "imdb:tt0000001" := {| timestamp := 0; data := Some show_42 |} ]};
          clock := 0; requests := 2; sleeps := [] |}).
Proof. split; vm_compute; reflexivity. Qed.

(** ** Batch processing *)


Section ShowProcessingFacts.
Variable field_processors : gmap string (PlexShow → Result Value).
Variable SELECTED_SHOW_FIELDS : list string.
Variable tvmaze_lookup : string → bool → M (option TVMazeShowInfo).

Local Abbreviation show_try :=
  (process_single_show_try field_processors SELECTED_SHOW_FIELDS tvmaze_lookup).
Local Abbreviation one_show :=
  (process_single_show field_processors SELECTED_SHOW_FIELDS tvmaze_lookup).
Local Abbreviation all_shows :=
  (executor_map field_processors SELECTED_SHOW_FIELDS tvmaze_lookup).
Local Abbreviation show_details :=
  (get_show_details field_processors SELECTED_SHOW_FIELDS tvmaze_lookup).

(** Every selected field has a value in the metadata, whatever the
    extractors do. *)
Lemma process_show_metadata_fields (show_obj : PlexShow) (field_name : string) :
  field_name ∈ SELECTED_SHOW_FIELDS →
  is_Some (process_show_metadata field_processors SELECTED_SHOW_FIELDS show_obj
           !! field_name).
Proof.
  unfold process_show_metadata.
  generalize (∅ : gmap string Value) as start.
  induction SELECTED_SHOW_FIELDS as [|f fs IH]; intros start Hin; simpl.
  { by apply elem_of_nil in Hin. }
  destruct (decide (field_name ∈ fs)) as [Hfs|Hfs]; [by apply IH|].
  apply elem_of_cons in Hin as [->|Hin]; [|done].
  clear IH. revert Hfs.
  generalize (match field_processors !! f with
              | Some processor =>
                match processor show_obj with
                | Ok value => value
                | Raise _ => VStr "Error Processing Field"
                end
              | None => VStr "N/A"
              end) as v.
  intros v Hfs.
  assert (∀ m : gmap string Value, is_Some (m !! f) →
            is_Some (foldl (λ show_metadata field_name,
               <[field_name :=
                   match field_processors !! field_name with
                   | Some processor =>
                     match processor show_obj with
                     | Ok value => value
                     | Raise _ => VStr "Error Processing Field"
                     end
                   | None => VStr "N/A"
                   end]> show_metadata) m fs !! f)) as Hkeep.
  { clear. induction fs as [|g gs IH]; intros m Hm; simpl; [done|].
    apply IH. rewrite lookup_insert. case_decide; [by eexists | done]. }
  apply Hkeep. rewrite lookup_insert_eq. by eexists.
Qed.

(** A show always yields a record: the one of its [try] block, or the
    minimal one when the block raises. *)
Lemma process_single_show_cases (show_obj : PlexShow) (w : World) :
  one_show show_obj w
  = match show_try show_obj w with
    | (Ok show_data, w') => (Ok show_data, w')
    | (Raise _, w') => (Ok (minimal_show_data show_obj), w')
    end.
Proof.
  unfold process_single_show, try_except.
  by destruct (show_try show_obj w) as [[d|e] w'].
Qed.

(** The record carries, under ['max_seasons'], the season total of its
    remote info, and 0 without remote info. *)
Lemma process_single_show_max_seasons (show_obj : PlexShow) (w w' : World)
    (show_data : ShowData) :
  one_show show_obj w = (Ok show_data, w') →
  max_seasons show_data
  = Some (from_option total_seasons 0 (tvmaze_info show_data)).
Proof.
  rewrite process_single_show_cases.
  destruct (show_try show_obj w) as [[d|e] w1] eqn:Htry.
  - intros [= <- <-]. revert Htry.
    unfold process_single_show_try, bind, lift, ret.
    repeat case_match; intros [= <- <-]; simplify_eq; done.
  - by intros [= <- <-].
Qed.

Lemma executor_map_returns (shows : list PlexShow) (w : World) :
  ∃ (show_results : list ShowData) (w' : World),
    all_shows shows w = (Ok show_results, w')
    ∧ length show_results = length shows
    ∧ Forall (λ show_data,
                max_seasons show_data
                = Some (from_option total_seasons 0 (tvmaze_info show_data)))
             show_results.
Proof.
  revert w. induction shows as [|show_obj rest IH]; intros w; simpl.
  { by eexists [], w. }
  unfold bind.
  destruct (one_show show_obj w) as [[d|e] w1] eqn:Hone.
  - destruct (IH w1) as (others & w2 & -> & Hlen & Hall).
    eexists (d :: others), w2. split; [done|]. split; [simpl; lia|].
    constructor; [|done]. by eapply process_single_show_max_seasons.
  - rewrite process_single_show_cases in Hone.
    by destruct (show_try show_obj w) as [[? | ?] ?].
Qed.


(** The loop over the results keeps every record, in order, without its
    ['max_seasons'] key, and takes the largest contribution, from 0 on. *)
Lemma collect_results_spec (show_results : list ShowData) :
  collect_results show_results
  = ((λ show_data, (pop_max_seasons show_data).2) <$> show_results,
     foldl Z.max 0 ((λ show_data, default 0 (max_seasons show_data))
                      <$> show_results)).
Proof.
  unfold collect_results.
  assert (∀ (acc : list ShowData) (start : Z),
            foldl (λ '(processed_shows_data, max_seasons_overall) show_data,
                     let '(show_max, show_data') := pop_max_seasons show_data in
                     (processed_shows_data ++ [show_data'],
                      Z.max max_seasons_overall show_max))
                  (acc, start) show_results
            = (acc ++ ((λ show_data, (pop_max_seasons show_data).2)
                         <$> show_results),
               foldl Z.max start
                     ((λ show_data, default 0 (max_seasons show_data))
                        <$> show_results))) as Hgen.
  { induction show_results as [|d rest IH]; intros acc start; simpl.
    - by rewrite app_nil_r.
    - rewrite IH. simpl. by rewrite <- app_assoc. }
  by rewrite Hgen.
Qed.

(** A batch with at least one show gets through the worker pool. *)
Lemma get_show_details_nonempty (shows : list PlexShow) (w : World) :
  shows ≠ [] →
  show_details shows w
  = (show_results ←' all_shows shows; ret (collect_results show_results)) w.
Proof.
  intros Hne. unfold get_show_details.
  destruct shows as [|show_obj rest]; [done|].
  unfold MAX_WORKER_THREADS. simpl length.
  by destruct (length rest) as [|[|[|[|[|[|[|[|[|[|n]]]]]]]]]].
Qed.

(** An empty batch does not: the pool refuses to start without workers. *)
Lemma get_show_details_empty (w : World) :
  show_details [] w = (Raise ValueError, w).
Proof. reflexivity. Qed.

Lemma get_show_details_returns (shows : list PlexShow) (w : World) :
  shows ≠ [] →
  ∃ (show_results : list ShowData) (w' : World),
    all_shows shows w = (Ok show_results, w')
    ∧ show_details shows w = (Ok (collect_results show_results), w')
    ∧ length (collect_results show_results).1 = length shows
    ∧ Forall (λ show_data,
                max_seasons show_data
                = Some (from_option total_seasons 0 (tvmaze_info show_data)))
             show_results.
Proof.
  intros Hne.
  destruct (executor_map_returns shows w) as (rs & w' & Hmap & Hlen & Hall).
  exists rs, w'. split; [done|].
  rewrite get_show_details_nonempty by done. unfold bind. rewrite Hmap.
  split; [done|]. split; [|done].
  rewrite collect_results_spec. simpl. by rewrite length_fmap.
Qed.
(** A show whose [try] block returns gets the record of the block, with a
    value for every selected field. *)
Lemma process_single_show_complete (show_obj : PlexShow) (w w' : World)
    (show_data : ShowData) :
  show_try show_obj w = (Ok show_data, w') →
  one_show show_obj w = (Ok show_data, w')
  ∧ ∀ field_name, field_name ∈ SELECTED_SHOW_FIELDS →
                  is_Some (fields show_data !! field_name).
Proof.
  intros Htry. rewrite process_single_show_cases, Htry. split; [done|].
  intros field_name Hin. revert Htry.
  unfold process_single_show_try, bind, lift, ret.
  repeat case_match; intros [= <- <-]; simplify_eq; simpl;
    by apply process_show_metadata_fields.
Qed.




End ShowProcessingFacts.



(** The batch of the three sample shows: the healthy show is found by its
    IMDB id and has a local season 0, the broken one degrades, and the
    largest season total is 2. *)
Example batch_of_three :
  match get_show_details sample_processors ["Title"; "Year"]
          (get_tvmaze_show_info reliable_server)
          [healthy_show; broken_show; healthy_show] fresh_world with
  | (Ok (records, max_seasons_overall), w) =>
    (tvmaze_info <$> records) = [Some show_42; None; Some show_42]
    ∧ ((λ d, fst <$> map_to_list (seasons_in_plex d)) <$> records)
      = [[1; 0]; []; [1; 0]]
    ∧ max_seasons_overall = 2
    ∧ requests w = 2%nat
  | _ => False
  end.
Proof. vm_compute. done. Qed.

(** ** Report headers *)

(** Reading back the rendering of an integer. *)
Lemma int_of_str_str (i : Z) : int_of_str (str i) = Some i.
Proof.
  unfold int_of_str, str.
  rewrite NilZero.isi.
  - simpl. by rewrite DecimalZ.of_to.
  - destruct i as [|p|p]; simpl; try discriminate.
    intros [= Hp]. by apply (DecimalPos.Unsigned.to_uint_nonnil p).
  - destruct i as [|p|p]; simpl; try discriminate.
    intros [= Hp]. by apply (DecimalPos.Unsigned.to_uint_nonnil p).
Qed.

Lemma int_of_str_fmt_02d (i : Z) : 0 ≤ i → int_of_str (fmt_02d i) = Some i.
Proof.
  intros Hi. unfold fmt_02d.
  destruct (Z.leb_spec 0 i) as [_|]; [|lia].
  destruct (Z.ltb_spec i 10) as [Hlt|_]; simpl; [|apply int_of_str_str].
  assert (∃ n : nat, i = Z.of_nat n ∧ (n < 10)%nat) as (n & -> & Hn).
  { exists (Z.to_nat i). lia. }
  do 10 (destruct n as [|n]; [reflexivity|]). lia.
Qed.

(** The header of a regular season is never the header of the specials. *)
Lemma season_header_not_S00 (i : Z) : 1 ≤ i → "S" +:+ fmt_02d i ≠ "S00".
Proof.
  intros Hi Heq.
  assert (int_of_str (fmt_02d i) = Some 0) as Hparse.
  { change (fmt_02d i) with (drop_first ("S" +:+ fmt_02d i)). by rewrite Heq. }
  rewrite int_of_str_fmt_02d in Hparse by lia.
  injection Hparse. lia.
Qed.

Lemma select_show_fields_possible (user_defined : option (list string)) :
  Forall (λ field, field ∈ ALL_POSSIBLE_SHOW_FIELDS)
         (select_show_fields user_defined).
Proof.
  assert (Forall (λ field, field ∈ ALL_POSSIBLE_SHOW_FIELDS) DEFAULT_SHOW_FIELDS)
    as Hdefault.
  { unfold DEFAULT_SHOW_FIELDS, ALL_POSSIBLE_SHOW_FIELDS.
    repeat constructor. all: set_solver. }
  unfold select_show_fields.
  destruct user_defined as [temp|]; [|done].
  destruct (filter _ (filter _ temp)) as [|f fs] eqn:Hsel; [done|].
  rewrite <- Hsel. apply Forall_forall. intros field Hin.
  by apply list_elem_of_filter in Hin as [Hposs _].
Qed.

Lemma has_specials_iff (shows_data_full : list ShowData) :
  has_specials shows_data_full = true
  ↔ ∃ show_dict, show_dict ∈ shows_data_full
                 ∧ is_Some (seasons_in_plex show_dict !! 0).
Proof.
  unfold has_specials. rewrite existsb_exists. split.
  - intros (d & Hin & Hd). exists d. split.
    + by apply list_elem_of_In.
    + by apply bool_decide_eq_true in Hd.
  - intros (d & Hin & Hd). exists d. split.
    + by apply list_elem_of_In.
    + by apply bool_decide_eq_true.
Qed.

Lemma S00_in_season_headers (shows_data_full : list ShowData)
    (max_seasons_overall : Z) :
  "S00" ∈ season_headers shows_data_full max_seasons_overall
  ↔ has_specials shows_data_full = true.
Proof.
  unfold season_headers. rewrite elem_of_app. split.
  - intros [Hin|Hin].
    + by destruct (has_specials shows_data_full); [|apply elem_of_nil in Hin].
    + apply list_elem_of_fmap in Hin as (i & Heq & Hi).
      apply elem_of_seqZ in Hi.
      exfalso. by apply (season_header_not_S00 i); [lia|].
  - intros ->. left. by left.
Qed.

(** The cells written for a list of regular season headers are the cells of
    these seasons. *)
Lemma season_cells_regular (show_info_full : ShowData) (nums : list Z) :
  Forall (λ i, 0 ≤ i) nums →
  season_cells show_info_full ((λ i, "S" +:+ fmt_02d i) <$> nums)
  = Some ((λ i, (i, _calculate_season_cell i (tvmaze_info show_info_full)
                                           (seasons_in_plex show_info_full)))
            <$> nums).
Proof.
  unfold season_cells.
  induction 1 as [|i nums Hi _ IH]; [done|].
  rewrite !fmap_cons. cbn [mapM].
  change (drop_first ("S" +:+ fmt_02d i)) with (fmt_02d i).
  rewrite int_of_str_fmt_02d by done. cbn [mbind option_bind].
  rewrite IH. reflexivity.
Qed.

(** C10: the header S00 is among the headers of the sheet exactly when some
    show of the batch has season 0 in its local season data; without such a
    show the season cells of every row, whatever its remote info lists, are
    those of the seasons 1 to the overall maximum, so a season 0 known to the
    remote only is not rendered. *)
Theorem specials_column_iff_local_specials (user_defined : option (list string))
    (shows_data_full : list ShowData) (max_seasons_overall : Z) :
  ("S00" ∈ (_generate_tv_show_headers (select_show_fields user_defined)
              shows_data_full max_seasons_overall).1
   ↔ ∃ show_dict, show_dict ∈ shows_data_full
                  ∧ is_Some (seasons_in_plex show_dict !! 0))
  ∧ ("S00" ∈ (_generate_tv_show_headers (select_show_fields user_defined)
                shows_data_full max_seasons_overall).2
     ↔ ∃ show_dict, show_dict ∈ shows_data_full
                    ∧ is_Some (seasons_in_plex show_dict !! 0))
  ∧ ((∀ show_dict, show_dict ∈ shows_data_full
                   → seasons_in_plex show_dict !! 0 = None) →
     ∀ show_info_full : ShowData,
       season_cells show_info_full
         (_generate_tv_show_headers (select_show_fields user_defined)
            shows_data_full max_seasons_overall).2
       = Some ((λ i, (i, _calculate_season_cell i (tvmaze_info show_info_full)
                                                (seasons_in_plex show_info_full)))
                 <$> seqZ 1 max_seasons_overall)).
Proof.
  unfold _generate_tv_show_headers. cbv zeta. cbn [fst snd].
  rewrite <- has_specials_iff. split; [|split].
  - rewrite !elem_of_app, S00_in_season_headers. split; [|by auto].
    intros [Hsel|[Hcompl|Hs]]; [| |done].
    + pose proof (select_show_fields_possible user_defined) as Hposs.
      rewrite Forall_forall in Hposs. specialize (Hposs _ Hsel).
      unfold ALL_POSSIBLE_SHOW_FIELDS in Hposs.
      repeat (apply elem_of_cons in Hposs as [Hposs|Hposs]; [discriminate|]).
      by apply elem_of_nil in Hposs.
    + apply list_elem_of_singleton in Hcompl. discriminate.
  - apply S00_in_season_headers.
  - intros Hnone show_info_full. unfold season_headers.
    assert (has_specials shows_data_full = false) as ->.
    { apply not_true_is_false. rewrite has_specials_iff.
      intros (d & Hin & [x Hx]). by rewrite (Hnone d Hin) in Hx. }
    simpl. apply season_cells_regular.
    apply Forall_forall. intros i Hi. apply elem_of_seqZ in Hi. lia.
Qed.

(** A show with a remote season 0 but no local one gets no S00 column. *)
Example remote_only_specials_not_rendered :
  _generate_tv_show_headers DEFAULT_SHOW_FIELDS
    [ {| fields := ∅;
         seasons_in_plex := plex_of [(1, 10)];
         tvmaze_info :=
           Some {| total_seasons := 1;
                   seasons := {[ 0 := {| total_episodes := 3 |};
                                 1 := {| total_episodes := 10 |} ]} |};
         max_seasons := None |} ] 1
  = ([ "Title"; "Year"; "Studio"; "ContentRating"; "Summary";
       "Series Complete (Plex/TVMaze)"; "S01" ], ["S01"]).
Proof. vm_compute. reflexivity. Qed.

(** * Further properties of the code *)

(** ** The retry decorator on a function that raises *)

Lemma total_delay_app (l1 l2 : list Z) :
  total_delay (l1 ++ l2) = total_delay l1 + total_delay l2.
Proof. unfold total_delay. induction l1 as [|d l1 IH]; simpl; lia. Qed.

(** The loop from attempt [a] on: [k] failures with a [RequestException],
    all below the retry limit, then an outcome the loop does not retry. *)
Lemma retry_loop_scripted {A} (outcomes : nat → Result (option A))
    (max_retries : nat) (backoff_factor : Z) (o : Result (option A)) (k : nat) :
  o ≠ Raise RequestException →
  ∀ (a n : nat) (delay : Z) (w : World),
    (a + k ≤ max_retries)%nat →
    (k < n)%nat →
    Forall (λ d, 0 ≤ d ≤ MAX_SLEEP) (backoff_delays delay backoff_factor k) →
    (∀ i, (i < k)%nat → outcomes (requests w + i)%nat = Raise RequestException) →
    outcomes (requests w + k)%nat = o →
    retry_loop (scripted outcomes) max_retries backoff_factor (seq a n) delay w
    = (o, {| cache := cache w;
             clock := clock w
                      + total_delay (backoff_delays delay backoff_factor k)
                        * microseconds_per_second;
             requests := requests w + k + 1;
             sleeps := backoff_delays delay backoff_factor k ++ sleeps w |}).
Proof.
  intros Ho. induction k as [|k IH]; intros a n delay w Ha Hn Hdelays Hfail Hout.
  - destruct n as [|n]; [lia|]. cbn [seq retry_loop]. unfold scripted at 1.
    rewrite Nat.add_0_r in Hout. rewrite Hout.
    replace (requests w + 0 + 1)%nat with (S (requests w)) by lia.
    cbn [backoff_delays total_delay foldr app]. rewrite Z.mul_0_l, Z.add_0_r.
    destruct o as [v|e]; [done|]. destruct e; [by destruct Ho | done | done].
  - destruct n as [|n]; [lia|]. cbn [seq retry_loop]. unfold scripted at 1.
    rewrite <- (Nat.add_0_r (requests w)) at 1.
    rewrite (Hfail 0%nat) by lia.
    destruct (Nat.ltb_spec a max_retries) as [_|]; [|lia].
    cbn [backoff_delays] in Hdelays.
    apply Forall_app in Hdelays as [Hrest Hdelay].
    apply Forall_cons in Hdelay as [[Hdelay _] _].
    unfold bind, time_sleep.
    destruct (Z.ltb_spec delay 0) as [|_]; [lia|]. cbn [fst snd].
    rewrite (IH (S a) n); cbn [requests clock cache sleeps]; try lia; try done.
    + f_equal. f_equal.
      * cbn [backoff_delays]. rewrite total_delay_app.
        unfold total_delay at 3. simpl. lia.
      * lia.
      * cbn [backoff_delays]. by rewrite <- app_assoc.
    + intros i Hi. replace (S (requests w) + i)%nat with (requests w + S i)%nat by lia.
      apply Hfail. lia.
    + replace (S (requests w) + k)%nat with (requests w + S k)%nat by lia. done.
Qed.

(** Retry, then an outcome that ends the loop: after [k] consecutive
    [RequestException]s, [k] within the retry limit, the wrapper hands on
    whatever the next call does, a value or another exception, having called
    the function [k + 1] times and slept [k] times with the delays base,
    base * factor, ...; each of these delays is a number of whole seconds
    from 0 to [MAX_SLEEP], which [time.sleep] takes. *)
Theorem retry_on_failure_after_failures {A} (outcomes : nat → Result (option A))
    (max_retries : nat) (base_delay backoff_factor : Z) (o : Result (option A))
    (k : nat) (w : World) :
  o ≠ Raise RequestException →
  (k ≤ max_retries)%nat →
  Forall (λ d, 0 ≤ d ≤ MAX_SLEEP) (backoff_delays base_delay backoff_factor k) →
  (∀ i, (i < k)%nat → outcomes (requests w + i)%nat = Raise RequestException) →
  outcomes (requests w + k)%nat = o →
  retry_on_failure max_retries base_delay backoff_factor (scripted outcomes) w
  = (o, {| cache := cache w;
           clock := clock w
                    + total_delay (backoff_delays base_delay backoff_factor k)
                      * microseconds_per_second;
           requests := requests w + k + 1;
           sleeps := backoff_delays base_delay backoff_factor k ++ sleeps w |}).
Proof.
  intros Ho Hk Hdelays Hfail Hout. unfold retry_on_failure.
  apply retry_loop_scripted; try done; lia.
Qed.

Lemma retry_on_failure_after_failures_witness :
  retry_on_failure 3 1 2
    (scripted (λ n, if (n <? 2)%nat then Raise RequestException else Ok (Some 7)))
    fresh_world
  = (Ok (Some 7),
     {| cache := cache fresh_world;
        clock := clock fresh_world
                 + total_delay (backoff_delays 1 2 2) * microseconds_per_second;
        requests := requests fresh_world + 2 + 1;
        sleeps := backoff_delays 1 2 2 ++ sleeps fresh_world |}).
Proof.
  apply (retry_on_failure_after_failures
           (λ n, if (n <? 2)%nat then Raise RequestException else Ok (Some 7))
           3 1 2 (Ok (Some 7)) 2 fresh_world).
  - discriminate.
  - lia.
  - repeat constructor; vm_compute; discriminate.
  - intros i Hi. simpl. destruct i as [|[|i]]; [reflexivity | reflexivity | lia].
  - reflexivity.
Defined.

(** The loop when every remaining attempt fails. *)
Lemma retry_loop_exhausted {A} (outcomes : nat → Result (option A))
    (max_retries : nat) (backoff_factor : Z) (k : nat) :
  ∀ (a : nat) (delay : Z) (w : World),
    (a + k = max_retries)%nat →
    Forall (λ d, 0 ≤ d ≤ MAX_SLEEP) (backoff_delays delay backoff_factor k) →
    (∀ i, (i ≤ k)%nat → outcomes (requests w + i)%nat = Raise RequestException) →
    retry_loop (scripted outcomes) max_retries backoff_factor (seq a (S k)) delay w
    = (Raise RequestException,
       {| cache := cache w;
          clock := clock w
                   + total_delay (backoff_delays delay backoff_factor k)
                     * microseconds_per_second;
          requests := requests w + k + 1;
          sleeps := backoff_delays delay backoff_factor k ++ sleeps w |}).
Proof.
  induction k as [|k IH]; intros a delay w Ha Hdelays Hfail.
  - cbn [seq retry_loop]. unfold scripted at 1.
    rewrite <- (Nat.add_0_r (requests w)) at 1. rewrite (Hfail 0%nat) by lia.
    destruct (Nat.ltb_spec a max_retries) as [|_]; [lia|].
    replace (requests w + 0 + 1)%nat with (S (requests w)) by lia.
    cbn [backoff_delays total_delay foldr app]. rewrite Z.mul_0_l, Z.add_0_r.
    done.
  - change (seq a (S (S k))) with (a :: seq (S a) (S k)).
    cbn [retry_loop]. unfold scripted at 1.
    rewrite <- (Nat.add_0_r (requests w)) at 1. rewrite (Hfail 0%nat) by lia.
    destruct (Nat.ltb_spec a max_retries) as [_|]; [|lia].
    cbn [backoff_delays] in Hdelays.
    apply Forall_app in Hdelays as [Hrest Hdelay].
    apply Forall_cons in Hdelay as [[Hdelay _] _].
    unfold bind, time_sleep.
    destruct (Z.ltb_spec delay 0) as [|_]; [lia|]. cbn [fst snd].
    rewrite (IH (S a)); cbn [requests clock cache sleeps]; try lia; try done.
    + f_equal. f_equal.
      * cbn [backoff_delays]. rewrite total_delay_app.
        unfold total_delay at 3. simpl. lia.
      * lia.
      * cbn [backoff_delays]. by rewrite <- app_assoc.
    + intros i Hi. replace (S (requests w) + i)%nat with (requests w + S i)%nat by lia.
      apply Hfail. lia.
Qed.

(** Giving up: when the function raises a [RequestException] on each of its
    [max_retries + 1] calls, the wrapper raises that exception again (it
    does not return [None]), after [max_retries] sleeps; each delay is a
    number of whole seconds from 0 to [MAX_SLEEP], which [time.sleep]
    takes. *)
Theorem retry_on_failure_exhausted {A} (outcomes : nat → Result (option A))
    (max_retries : nat) (base_delay backoff_factor : Z) (w : World) :
  Forall (λ d, 0 ≤ d ≤ MAX_SLEEP)
         (backoff_delays base_delay backoff_factor max_retries) →
  (∀ i, (i ≤ max_retries)%nat →
        outcomes (requests w + i)%nat = Raise RequestException) →
  retry_on_failure max_retries base_delay backoff_factor (scripted outcomes) w
  = (Raise RequestException,
     {| cache := cache w;
        clock := clock w
                 + total_delay (backoff_delays base_delay backoff_factor max_retries)
                   * microseconds_per_second;
        requests := requests w + max_retries + 1;
        sleeps := backoff_delays base_delay backoff_factor max_retries
                  ++ sleeps w |}).
Proof.
  intros Hdelays Hfail. unfold retry_on_failure.
  rewrite Nat.add_1_r. by apply retry_loop_exhausted.
Qed.

Lemma retry_on_failure_exhausted_witness :
  retry_on_failure TVMAZE_MAX_RETRIES TVMAZE_RETRY_DELAY 2
    (scripted (λ _, @Raise (option Z) RequestException)) fresh_world
  = (Raise RequestException,
     {| cache := cache fresh_world;
        clock := clock fresh_world
                 + total_delay (backoff_delays TVMAZE_RETRY_DELAY 2 TVMAZE_MAX_RETRIES)
                   * microseconds_per_second;
        requests := requests fresh_world + TVMAZE_MAX_RETRIES + 1;
        sleeps := backoff_delays TVMAZE_RETRY_DELAY 2 TVMAZE_MAX_RETRIES
                  ++ sleeps fresh_world |}).
Proof.
  apply (retry_on_failure_exhausted (λ _, @Raise (option Z) RequestException)
           TVMAZE_MAX_RETRIES TVMAZE_RETRY_DELAY 2 fresh_world).
  - repeat constructor; vm_compute; discriminate.
  - intros i Hi. reflexivity.
Defined.

(** With the defaults the waits add up to seven seconds. *)
Example default_backoff :
  backoff_delays TVMAZE_RETRY_DELAY 2 TVMAZE_MAX_RETRIES = [4; 2; 1]
  ∧ total_delay (backoff_delays TVMAZE_RETRY_DELAY 2 TVMAZE_MAX_RETRIES) = 7.
Proof. split; reflexivity. Qed.

(** A negative delay is refused by [time.sleep]: the wrapper leaves with a
    [ValueError] after the first failure, without a second call. *)
Example negative_delay_raises :
  let outcome :=
    retry_on_failure 3 (-1) 2
      (scripted (λ _, @Raise (option Z) RequestException)) fresh_world in
  outcome.1 = Raise ValueError
  ∧ requests outcome.2 = 1%nat
  ∧ sleeps outcome.2 = [].
Proof. vm_compute. done. Qed.

(** ** The remote fetch *)

Lemma foldr_max_spec (k : Z) (ks : list Z) :
  foldr Z.max k ks ∈ k :: ks ∧ Forall (λ j, j ≤ foldr Z.max k ks) (k :: ks).
Proof.
  induction ks as [|j ks [Hin Hall]]; simpl.
  { split; [by left | by constructor]. }
  apply Forall_cons in Hall as [Hk Hall]. split.
  - destruct (Z.max_spec j (foldr Z.max k ks)) as [[_ ->]|[_ ->]].
    + apply elem_of_cons in Hin as [->|Hin]; [by left | by do 2 right].
    + right. by left.
  - constructor; [lia|]. constructor; [lia|].
    eapply Forall_impl; [exact Hall|]. simpl. intros. lia.
Qed.

(** [max] over the keys of a non-empty dictionary is its largest key. *)
Lemma max_key_spec {A} (d : gmap Z A) (dflt : Z) :
  d ≠ ∅ →
  max_key d dflt ∈ dom d ∧ ∀ k, k ∈ dom d → k ≤ max_key d dflt.
Proof.
  intros Hne. unfold max_key.
  assert (∀ k, k ∈ (map_to_list d).*1 ↔ k ∈ dom d) as Hkeys.
  { intros k. rewrite elem_of_dom. split.
    - intros Hk. apply list_elem_of_fmap in Hk as [[k' a] [-> Hin]].
      apply elem_of_map_to_list in Hin. by exists a.
    - intros [a Ha]. apply list_elem_of_fmap. exists (k, a). split; [done|].
      by apply elem_of_map_to_list. }
  destruct ((map_to_list d).*1) as [|k ks] eqn:Hl.
  { exfalso. apply Hne. apply map_to_list_empty_iff.
    by apply fmap_nil_inv in Hl. }
  destruct (foldr_max_spec k ks) as [Hin Hall]. split.
  - by apply Hkeys.
  - intros j Hj. apply Hkeys in Hj. rewrite Forall_forall in Hall. by apply Hall.
Qed.

(** Grouping the episodes by season: a season is listed with the number of
    episodes that carry its number, and a season without episodes is not
    listed. *)
Lemma group_episodes_lookup (episodes : list (option Z)) (season_num : Z) :
  foldl count_episode ∅ episodes !! season_num
  = if 0 <? episodes_in_season episodes season_num
    then Some {| total_episodes := episodes_in_season episodes season_num |}
    else None.
Proof.
  unfold episodes_in_season.
  induction episodes as [|episode episodes IH] using rev_ind.
  { simpl. by rewrite lookup_empty. }
  rewrite foldl_app, filter_app, length_app, Nat2Z.inj_add.
  cbn [foldl]. rewrite filter_cons, filter_nil.
  remember (Z.of_nat (length (filter (λ episode, episode = Some season_num)
                                     episodes))) as c eqn:Hc.
  assert (0 ≤ c) as Hnonneg by lia. clear Hc.
  destruct episode as [n|]; cbn [count_episode].
  - destruct (decide (n = season_num)) as [->|Hn].
    + rewrite lookup_insert_eq, IH, decide_True by done. cbn [length].
      destruct (Z.ltb_spec 0 c); destruct (Z.ltb_spec 0 (c + Z.of_nat 1));
        try lia; cbn [from_option total_episodes]; do 2 f_equal; lia.
    + rewrite lookup_insert_ne, IH by done.
      rewrite decide_False by congruence. cbn [length].
      by rewrite Z.add_0_r.
  - rewrite IH. rewrite decide_False by done. cbn [length].
    by rewrite Z.add_0_r.
Qed.

Section RemoteFetchFacts.
Variable server : nat → Request → Reply.

(** The client never raises: whatever the service does, the fetch returns a
    value, after one or two requests, without sleeping and without touching
    the cache or the clock. *)
Theorem remote_fetch_never_raises (search_term : string) (is_imdb_id : bool)
    (w : World) :
  ∃ (r : option TVMazeShowInfo) (n : nat),
    _fetch_tvmaze_show_info_from_api server search_term is_imdb_id w
    = (Ok r, {| cache := cache w; clock := clock w;
                requests := n; sleeps := sleeps w |})
    ∧ (requests w < n ≤ requests w + 2)%nat.
Proof. apply fetch_effects. Qed.

(** A show info comes from a show id other than 0 and from the episode list
    of that show: each season is listed with the number of episodes that carry
    its number, episodes without a season number count nowhere, and the
    season total is the largest listed season number, or 0 when no season is
    listed. *)
Theorem remote_fetch_result (search_term : string) (is_imdb_id : bool)
    (w w' : World) (info : TVMazeShowInfo) :
  _fetch_tvmaze_show_info_from_api server search_term is_imdb_id w
  = (Ok (Some info), w') →
  ∃ (show_id : Z) (episodes : list (option Z)),
    server (requests w) (if is_imdb_id then LookupShows search_term
                         else SearchShows search_term)
    = ShowFound (Some show_id)
    ∧ show_id ≠ 0
    ∧ server (S (requests w)) (ShowEpisodes show_id) = EpisodeList episodes
    ∧ (∀ season_num,
         seasons info !! season_num
         = if 0 <? episodes_in_season episodes season_num
           then Some {| total_episodes := episodes_in_season episodes season_num |}
           else None)
    ∧ (seasons info = ∅ → total_seasons info = 0)
    ∧ (seasons info ≠ ∅ →
       total_seasons info ∈ dom (seasons info)
       ∧ ∀ season_num, season_num ∈ dom (seasons info)
                       → season_num ≤ total_seasons info).
Proof.
  rewrite fetch_never_retries.
  unfold fetch_undecorated, try_except, fetch_try_block, bind, session_get,
    raise, ret.
  destruct (server (requests w) _) as [| |[id|]|l] eqn:Hfirst; simpl; try done.
  destruct (Z.eqb_spec id 0) as [|Hid]; simpl; [done|].
  destruct (server (S (requests w)) _) as [| |id'|episodes] eqn:Hsecond;
    simpl; try done.
  assert (∀ info0 : TVMazeShowInfo,
            seasons info0 = foldl count_episode ∅ episodes →
            (seasons info0 = ∅ → total_seasons info0 = 0) →
            (seasons info0 ≠ ∅ →
             total_seasons info0 = max_key (seasons info0) 0) →
            ∃ (show_id : Z) (episodes0 : list (option Z)),
              @ShowFound (Some id) = ShowFound (Some show_id)
              ∧ show_id ≠ 0
              ∧ server (S (requests w)) (ShowEpisodes show_id)
                = EpisodeList episodes0
              ∧ (∀ season_num,
                   seasons info0 !! season_num
                   = if 0 <? episodes_in_season episodes0 season_num
                     then Some {| total_episodes :=
                                    episodes_in_season episodes0 season_num |}
                     else None)
              ∧ (seasons info0 = ∅ → total_seasons info0 = 0)
              ∧ (seasons info0 ≠ ∅ →
                 total_seasons info0 ∈ dom (seasons info0)
                 ∧ ∀ season_num, season_num ∈ dom (seasons info0)
                                 → season_num ≤ total_seasons info0)) as Hshape.
  { intros info0 Hseasons Hempty Hmax. exists id, episodes.
    split; [done|]. split; [done|]. split; [done|]. split; [|split; [done|]].
    - intros season_num. rewrite Hseasons. apply group_episodes_lookup.
    - intros Hne. rewrite (Hmax Hne). by apply max_key_spec. }
  destruct episodes as [|episode episodes].
  { intros [= <- <-]. by apply Hshape. }
  case_bool_decide as Hgrouped.
  - intros [= <- <-]. apply Hshape; [by rewrite Hgrouped | done | done].
  - intros [= <- <-]. apply Hshape; [done | done | done].
Qed.
End RemoteFetchFacts.

Lemma remote_fetch_result_witness :
  ∃ (show_id : Z) (episodes : list (option Z)),
    reliable_server (requests fresh_world) (LookupShows "tt0000001")
    = ShowFound (Some show_id)
    ∧ show_id ≠ 0
    ∧ reliable_server (S (requests fresh_world)) (ShowEpisodes show_id)
      = EpisodeList episodes
    ∧ (∀ season_num,
         seasons show_42 !! season_num
         = if 0 <? episodes_in_season episodes season_num
           then Some {| total_episodes := episodes_in_season episodes season_num |}
           else None)
    ∧ (seasons show_42 = ∅ → total_seasons show_42 = 0)
    ∧ (seasons show_42 ≠ ∅ →
       total_seasons show_42 ∈ dom (seasons show_42)
       ∧ ∀ season_num, season_num ∈ dom (seasons show_42)
                       → season_num ≤ total_seasons show_42).
Proof.
  apply (remote_fetch_result reliable_server "tt0000001" true fresh_world
           {| cache := ∅; clock := 0; requests := 2; sleeps := [] |} show_42).
  vm_compute. reflexivity.
Defined.

(** ** Cache lookups *)

Lemma with_cache_same (w : World) : with_cache (cache w) w = w.
Proof. by destruct w. Qed.

(** The age test in microseconds: an entry passes while it is less than 31
    days old. *)
Lemma age_days_le_max (now ts : Z) :
  age_days now ts ≤ TVMAZE_CACHE_MAX_AGE_DAYS
  ↔ now - ts < (TVMAZE_CACHE_MAX_AGE_DAYS + 1) * microseconds_per_day.
Proof.
  unfold age_days, TVMAZE_CACHE_MAX_AGE_DAYS, microseconds_per_day,
    microseconds_per_second.
  change (86400 * 1000000) with 86400000000.
  pose proof (Z.div_mod (now - ts) 86400000000 ltac:(lia)) as Hdiv.
  pose proof (Z.mod_pos_bound (now - ts) 86400000000 ltac:(lia)) as Hmod.
  lia.
Qed.

(** The lifetime of an entry: [get_from_cache] serves a stored entry, and
    leaves the cache as it is, exactly while the entry is less than 31 days
    old (its whole days do not exceed 30); from 31 days on the read is a miss
    and removes the entry. *)
Theorem cache_entry_lifetime (key : string) (now : Z)
    (c : gmap string CacheEntry) (entry : CacheEntry) :
  c !! key = Some entry →
  (now - timestamp entry < 31 * microseconds_per_day →
   get_from_cache key now c = (data entry, c))
  ∧ (31 * microseconds_per_day ≤ now - timestamp entry →
     get_from_cache key now c = (None, delete key c)).
Proof.
  intros Hentry. unfold get_from_cache. rewrite Hentry.
  pose proof (age_days_le_max now (timestamp entry)) as Hage.
  change ((TVMAZE_CACHE_MAX_AGE_DAYS + 1) * microseconds_per_day)
    with (31 * microseconds_per_day) in Hage.
  destruct (Z.gtb_spec (age_days now (timestamp entry)) TVMAZE_CACHE_MAX_AGE_DAYS)
    as [Hold|Hfresh].
  - split; [|done]. intros Hlt. apply Hage in Hlt. lia.
  - split; [done|]. intros Hge. apply Hage in Hfresh. lia.
Qed.

Lemma cache_entry_lifetime_witness :
  get_from_cache "title:Alpha" (31 * microseconds_per_day - 1)
    {[ "title:Alpha" := {| timestamp := 0; data := Some show_42 |} ]}
  = (Some show_42,
     {[ "title:Alpha" := {| timestamp := 0; data := Some show_42 |} ]}).
Proof.
  refine (proj1 (cache_entry_lifetime "title:Alpha" (31 * microseconds_per_day - 1)
                   {[ "title:Alpha" := {| timestamp := 0; data := Some show_42 |} ]}
                   {| timestamp := 0; data := Some show_42 |} _) _).
  - reflexivity.
  - reflexivity.
Defined.

(** A read changes nothing but the entry it asks for. *)
Lemma get_from_cache_frame (key key' : string) (now : Z)
    (c : gmap string CacheEntry) :
  key' ≠ key → (get_from_cache key now c).2 !! key' = c !! key'.
Proof.
  intros Hne. unfold get_from_cache.
  destruct (c !! key) as [entry|]; [|done].
  destruct (_ >? _); simpl; [|done]. by rewrite lookup_delete_ne.
Qed.

(** The two kinds of lookup use different keys, and different terms too. *)
Lemma cache_key_inj (t1 t2 : string) (b1 b2 : bool) :
  cache_key t1 b1 = cache_key t2 b2 → t1 = t2 ∧ b1 = b2.
Proof.
  unfold cache_key. destruct b1, b2; simpl; intros H; by simplify_eq.
Qed.

Section CachedLookupFacts.
Variable server : nat → Request → Reply.

Lemma cached_lookup_sends_no_request_aux (search_term : string)
    (is_imdb_id : bool) (w : World) (entry : CacheEntry) (info : TVMazeShowInfo) :
  cache w !! cache_key search_term is_imdb_id = Some entry →
  data entry = Some info →
  age_days (clock w) (timestamp entry) ≤ TVMAZE_CACHE_MAX_AGE_DAYS →
  get_tvmaze_show_info server search_term is_imdb_id w = (Ok (Some info), w).
Proof.
  intros Hentry Hdata Hage.
  unfold get_tvmaze_show_info, bind, cache_read, get_from_cache.
  rewrite Hentry.
  destruct (Z.gtb_spec (age_days (clock w) (timestamp entry))
                       TVMAZE_CACHE_MAX_AGE_DAYS); [lia|].
  rewrite Hdata. unfold ret. by rewrite with_cache_same.
Qed.

(** A cache hit sends no request: with a stored show info that is not older
    than the maximum, the lookup answers it and changes nothing, whatever
    the remote service would say. *)
Theorem cached_lookup_sends_no_request (search_term : string) (is_imdb_id : bool)
    (w : World) (entry : CacheEntry) (info : TVMazeShowInfo) :
  cache w !! cache_key search_term is_imdb_id = Some entry →
  data entry = Some info →
  age_days (clock w) (timestamp entry) ≤ TVMAZE_CACHE_MAX_AGE_DAYS →
  get_tvmaze_show_info server search_term is_imdb_id w = (Ok (Some info), w).
Proof. apply cached_lookup_sends_no_request_aux. Qed.

(** What a lookup that found a show leaves behind: a fresh entry with that
    show under the key of the lookup, stamped with the time of the lookup
    when a request was sent. *)
Lemma lookup_found_entry (search_term : string) (is_imdb_id : bool)
    (w w1 : World) (info : TVMazeShowInfo) :
  get_tvmaze_show_info server search_term is_imdb_id w = (Ok (Some info), w1) →
  clock w1 = clock w
  ∧ ∃ entry, cache w1 !! cache_key search_term is_imdb_id = Some entry
             ∧ data entry = Some info
             ∧ age_days (clock w1) (timestamp entry) ≤ TVMAZE_CACHE_MAX_AGE_DAYS
             ∧ (requests w ≠ requests w1 → timestamp entry = clock w).
Proof.
  unfold get_tvmaze_show_info, bind, cache_read.
  unfold get_from_cache at 1.
  destruct (cache w !! cache_key search_term is_imdb_id) as [entry|] eqn:Hentry.
  - destruct (Z.gtb_spec (age_days (clock w) (timestamp entry))
                         TVMAZE_CACHE_MAX_AGE_DAYS) as [Hold|Hfresh]; simpl.
    + destruct (fetch_effects server search_term is_imdb_id
                  (with_cache (delete (cache_key search_term is_imdb_id) (cache w)) w))
        as (r & n & Hf & Hn).
      rewrite Hf. destruct r as [r|]; unfold cache_write, ret; simpl; [|done].
      intros [= <- <-]. simpl. split; [done|].
      eexists. unfold add_to_cache. rewrite lookup_insert_eq.
      split; [done|]. split; [done|].
      split; [|done]. unfold age_days. by rewrite Z.sub_diag.
    + destruct (data entry) as [hit|] eqn:Hdata; unfold ret.
      * intros [= <- <-]. simpl. split; [done|]. exists entry.
        split; [done|]. split; [done|]. split; [lia | done].
      * destruct (fetch_effects server search_term is_imdb_id
                    (with_cache (cache w) w)) as (r & n & Hf & Hn).
        rewrite Hf. destruct r as [r|]; unfold cache_write, ret; simpl; [|done].
        intros [= <- <-]. simpl. split; [done|].
        eexists. unfold add_to_cache. rewrite lookup_insert_eq.
      split; [done|]. split; [done|].
        split; [|done]. unfold age_days. by rewrite Z.sub_diag.
  - simpl.
    destruct (fetch_effects server search_term is_imdb_id
                (with_cache (cache w) w)) as (r & n & Hf & Hn).
    rewrite Hf. destruct r as [r|]; unfold cache_write, ret; simpl; [|done].
    intros [= <- <-]. simpl. split; [done|].
    eexists. unfold add_to_cache. rewrite lookup_insert_eq.
      split; [done|]. split; [done|].
    split; [|done]. unfold age_days. by rewrite Z.sub_diag.
Qed.

(** A show that was found is not fetched twice: the same lookup right after
    answers the same info without a request, and after a lookup that sent a
    request so does every lookup made while the time elapsed stays within
    the maximum age. *)
Theorem repeated_lookup_is_cached (search_term : string) (is_imdb_id : bool)
    (w w1 : World) (info : TVMazeShowInfo) :
  get_tvmaze_show_info server search_term is_imdb_id w = (Ok (Some info), w1) →
  get_tvmaze_show_info server search_term is_imdb_id w1 = (Ok (Some info), w1)
  ∧ (requests w ≠ requests w1 →
     ∀ elapsed,
       age_days (clock w1 + elapsed) (clock w1) ≤ TVMAZE_CACHE_MAX_AGE_DAYS →
       get_tvmaze_show_info server search_term is_imdb_id (later elapsed w1)
       = (Ok (Some info), later elapsed w1)).
Proof.
  intros Hfirst.
  destruct (lookup_found_entry _ _ _ _ _ Hfirst)
    as (Hclock & entry & Hentry & Hdata & Hage & Hstamp).
  split.
  - by eapply cached_lookup_sends_no_request_aux.
  - intros Hsent elapsed Helapsed.
    eapply cached_lookup_sends_no_request_aux; [exact Hentry | exact Hdata |].
    simpl. rewrite (Hstamp Hsent), <- Hclock. exact Helapsed.
Qed.

(** A lookup leaves the entries of all other lookups alone: the entry of a
    different term, or of the same term under the other kind of lookup, is
    after the lookup what it was before. *)
Theorem lookup_leaves_other_keys (search_term other_term : string)
    (is_imdb_id other_is_imdb_id : bool) (w : World) :
  (search_term ≠ other_term ∨ is_imdb_id ≠ other_is_imdb_id) →
  cache (get_tvmaze_show_info server search_term is_imdb_id w).2
    !! cache_key other_term other_is_imdb_id
  = cache w !! cache_key other_term other_is_imdb_id.
Proof.
  intros Hdiff.
  assert (cache_key other_term other_is_imdb_id
          ≠ cache_key search_term is_imdb_id) as Hkey.
  { intros Heq. apply cache_key_inj in Heq as [-> ->]. by destruct Hdiff. }
  unfold get_tvmaze_show_info, bind, cache_read.
  pose proof (get_from_cache_frame (cache_key search_term is_imdb_id) _
                (clock w) (cache w) Hkey) as Hframe.
  destruct (get_from_cache _ _ _) as [[hit|] c]; simpl in *; [done|].
  destruct (fetch_effects server search_term is_imdb_id (with_cache c w))
    as (r & n & Hf & Hn).
  rewrite Hf. destruct r as [r|]; unfold cache_write, ret; simpl; [|done].
  unfold add_to_cache. by rewrite lookup_insert_ne.
Qed.
End CachedLookupFacts.

Lemma cached_lookup_sends_no_request_witness :
  get_tvmaze_show_info empty_server "Alpha" false
    {| cache := {[ "title:Alpha" := {| timestamp := 0; data := Some show_42 |} ]};
       clock := 5; requests := 0; sleeps := [] |}
  = (Ok (Some show_42),
     {| cache := {[ "title:Alpha" := {| timestamp := 0; data := Some show_42 |} ]};
        clock := 5; requests := 0; sleeps := [] |}).
Proof.
  apply (cached_lookup_sends_no_request empty_server "Alpha" false
           {| cache := {[ "title:Alpha" := {| timestamp := 0; data := Some show_42 |} ]};
              clock := 5; requests := 0; sleeps := [] |}
           {| timestamp := 0; data := Some show_42 |} show_42).
  - reflexivity.
  - reflexivity.
  - vm_compute. discriminate.
Defined.

Lemma repeated_lookup_is_cached_witness :
  get_tvmaze_show_info reliable_server "tt0000001" true
    {| cache := {[ "imdb:tt0000001" := {| timestamp := 0; data := Some show_42 |} ]};
       clock := 0; requests := 2; sleeps := [] |}
  = (Ok (Some show_42),
     {| cache := {[ "imdb:tt0000001" := {| timestamp := 0; data := Some show_42 |} ]};
        clock := 0; requests := 2; sleeps := [] |}).
Proof.
  refine (proj1 (repeated_lookup_is_cached reliable_server "tt0000001" true
                   fresh_world _ show_42 _)).
  vm_compute. reflexivity.
Defined.

Lemma lookup_leaves_other_keys_witness :
  cache (get_tvmaze_show_info reliable_server "Alpha" true
           {| cache := {[ "title:Alpha" := {| timestamp := 0; data := None |} ]};
              clock := 5; requests := 0; sleeps := [] |}).2
    !! cache_key "Alpha" false
  = cache {| cache := {[ "title:Alpha" := {| timestamp := 0; data := None |} ]};
             clock := 5; requests := 0; sleeps := [] |}
    !! cache_key "Alpha" false.
Proof.
  apply (lookup_leaves_other_keys reliable_server "Alpha" "Alpha" true false).
  right. discriminate.
Defined.

(** ** The cache file *)

Lemma valid_entry_Some (now : Z) (raw : RawCacheEntry) (entry : CacheEntry) :
  valid_entry now raw = Some entry
  ↔ raw_timestamp raw = Some (timestamp entry)
    ∧ raw_data raw = Some (data entry)
    ∧ age_days now (timestamp entry) ≤ TVMAZE_CACHE_MAX_AGE_DAYS.
Proof.
  unfold valid_entry. destruct raw as [[ts|] [d|]]; simpl;
    try (split; [done | by intros (? & ? & ?)]).
  destruct (Z.leb_spec (age_days now ts) TVMAZE_CACHE_MAX_AGE_DAYS) as [Hle|Hgt].
  - split.
    + by intros [= <-].
    + intros ([= ->] & [= ->] & _). by destruct entry.
  - split; [done|]. intros ([= ->] & _ & Hle). lia.
Qed.

(** Loading keeps the complete entries of the file that are not older than
    the maximum, under their keys and unchanged, and nothing else: every
    loaded entry comes from the file, and is served by [get_from_cache] at
    the time of the load. *)
Theorem loaded_entries_are_fresh (file : CacheFileState) (now : Z)
    (key : string) (entry : CacheEntry) :
  load_tvmaze_cache file now !! key = Some entry →
  (∃ (version : string) (entries : gmap string RawCacheEntry) (saved_at : Z)
     (raw : RawCacheEntry),
     file = CacheFileData version entries saved_at
     ∧ entries !! key = Some raw
     ∧ raw_timestamp raw = Some (timestamp entry)
     ∧ raw_data raw = Some (data entry))
  ∧ age_days now (timestamp entry) ≤ TVMAZE_CACHE_MAX_AGE_DAYS
  ∧ get_from_cache key now (load_tvmaze_cache file now)
    = (data entry, load_tvmaze_cache file now).
Proof.
  intros Hloaded.
  assert (age_days now (timestamp entry) ≤ TVMAZE_CACHE_MAX_AGE_DAYS
          ∧ ∃ (version : string) (entries : gmap string RawCacheEntry)
              (saved_at : Z) (raw : RawCacheEntry),
              file = CacheFileData version entries saved_at
              ∧ entries !! key = Some raw
              ∧ raw_timestamp raw = Some (timestamp entry)
              ∧ raw_data raw = Some (data entry)) as [Hage Hfile].
  { destruct file as [| | |version entries saved_at]; simpl in Hloaded;
      try (by rewrite lookup_empty in Hloaded).
    rewrite lookup_omap in Hloaded.
    destruct (entries !! key) as [raw|] eqn:Hraw; simpl in Hloaded; [|done].
    apply valid_entry_Some in Hloaded as (Hts & Hd & Hage).
    split; [done|]. by exists version, entries, saved_at, raw. }
  split; [done|]. split; [done|].
  unfold get_from_cache. rewrite Hloaded.
  destruct (Z.gtb_spec (age_days now (timestamp entry)) TVMAZE_CACHE_MAX_AGE_DAYS);
    [lia | done].
Qed.

Lemma loaded_entries_are_fresh_witness :
  get_from_cache "title:Alpha" 9
    (load_tvmaze_cache
       (CacheFileData "0.9"
          {[ "title:Alpha" := {| raw_timestamp := Some 0;
                                 raw_data := Some (Some show_42) |};
             "title:Beta" := {| raw_timestamp := None;
                                raw_data := Some None |} ]} 1) 9)
  = (data {| timestamp := 0; data := Some show_42 |},
     load_tvmaze_cache
       (CacheFileData "0.9"
          {[ "title:Alpha" := {| raw_timestamp := Some 0;
                                 raw_data := Some (Some show_42) |};
             "title:Beta" := {| raw_timestamp := None;
                                raw_data := Some None |} ]} 1) 9).
Proof.
  refine (proj2 (proj2 (loaded_entries_are_fresh _ 9 "title:Alpha"
                          {| timestamp := 0; data := Some show_42 |} _))).
  vm_compute. reflexivity.
Defined.

(** A file that is missing, unreadable or of another shape gives an empty
    cache, and the version the file states is not looked at. *)
Lemma load_tvmaze_cache_cold_start (now : Z) :
  load_tvmaze_cache NoCacheFile now = ∅
  ∧ load_tvmaze_cache UnreadableCacheFile now = ∅
  ∧ load_tvmaze_cache ForeignObject now = ∅
  ∧ ∀ v1 v2 entries s1 s2,
      load_tvmaze_cache (CacheFileData v1 entries s1) now
      = load_tvmaze_cache (CacheFileData v2 entries s2) now.
Proof. done. Qed.

Lemma load_after_save_lookup (c : gmap string CacheEntry) (save_time load_time : Z)
    (key : string) :
  load_tvmaze_cache (save_tvmaze_cache c save_time) load_time !! key
  = entry ← c !! key;
    if age_days load_time (timestamp entry) <=? TVMAZE_CACHE_MAX_AGE_DAYS
    then Some entry else None.
Proof.
  unfold load_tvmaze_cache, save_tvmaze_cache.
  rewrite lookup_omap, lookup_fmap.
  destruct (c !! key) as [[ts d]|]; simpl; [|done].
  unfold valid_entry. simpl. by destruct (_ <=? _).
Qed.

(** Saving and loading again: whenever the cache is saved and whenever it is
    loaded afterwards, a read of any key at the time of the load answers from
    the loaded cache what it would have answered from the cache that was
    saved; and a cache whose entries are all within the maximum age at the
    time of the load comes back as it was. *)
Theorem save_load_round_trip (c : gmap string CacheEntry)
    (save_time load_time : Z) :
  (∀ key,
     (get_from_cache key load_time
        (load_tvmaze_cache (save_tvmaze_cache c save_time) load_time)).1
     = (get_from_cache key load_time c).1)
  ∧ ((∀ key entry, c !! key = Some entry →
        age_days load_time (timestamp entry) ≤ TVMAZE_CACHE_MAX_AGE_DAYS) →
     load_tvmaze_cache (save_tvmaze_cache c save_time) load_time = c).
Proof.
  split.
  - intros key. unfold get_from_cache. rewrite load_after_save_lookup.
    destruct (c !! key) as [entry|]; simpl; [|done].
    destruct (Z.leb_spec (age_days load_time (timestamp entry))
                         TVMAZE_CACHE_MAX_AGE_DAYS) as [Hle|Hgt].
    + destruct (Z.gtb_spec (age_days load_time (timestamp entry))
                           TVMAZE_CACHE_MAX_AGE_DAYS); [lia | done].
    + destruct (Z.gtb_spec (age_days load_time (timestamp entry))
                           TVMAZE_CACHE_MAX_AGE_DAYS); [done | lia].
  - intros Hfresh. apply map_eq. intros key. rewrite load_after_save_lookup.
    destruct (c !! key) as [entry|] eqn:Hentry; simpl; [|done].
    destruct (Z.leb_spec (age_days load_time (timestamp entry))
                         TVMAZE_CACHE_MAX_AGE_DAYS) as [Hle|Hgt]; [done|].
    specialize (Hfresh key entry Hentry). lia.
Qed.

(** ** Field extraction *)

Lemma foldl_insert_lookup {V} (g : string → V) (names : list string)
    (start : gmap string V) (name : string) :
  foldl (λ m n, <[n := g n]> m) start names !! name
  = if decide (name ∈ names) then Some (g name) else start !! name.
Proof.
  revert start. induction names as [|n names IH]; intros start; cbn [foldl].
  { destruct (decide (name ∈ [])) as [Hin|_]; [|done].
    by apply elem_of_nil in Hin. }
  rewrite IH.
  destruct (decide (name ∈ names)) as [Hin|Hnin];
    destruct (decide (name ∈ n :: names)) as [Hin'|Hnin']; try done.
  - exfalso. apply Hnin'. by right.
  - apply elem_of_cons in Hin' as [->|Hin']; [|done].
    by rewrite lookup_insert_eq.
  - rewrite lookup_insert_ne; [done|]. intros ->. apply Hnin'. by left.
Qed.

(** Field isolation: the metadata of a show has a value for exactly the
    selected fields, and the value of a field depends on the extractor of
    that field only: its result, the marker "Error Processing Field" when it
    raises, and "N/A" when no extractor is registered; an extractor that
    raises changes no other field. *)
Theorem show_metadata_field_isolation
    (field_processors : gmap string (PlexShow → Result Value))
    (SELECTED_SHOW_FIELDS : list string) (show_obj : PlexShow)
    (field_name : string) :
  process_show_metadata field_processors SELECTED_SHOW_FIELDS show_obj
    !! field_name
  = if decide (field_name ∈ SELECTED_SHOW_FIELDS)
    then Some match field_processors !! field_name with
              | Some processor =>
                match processor show_obj with
                | Ok value => value
                | Raise _ => VStr "Error Processing Field"
                end
              | None => VStr "N/A"
              end
    else None.
Proof.
  unfold process_show_metadata.
  rewrite (foldl_insert_lookup
             (λ n, match field_processors !! n with
                   | Some processor =>
                     match processor show_obj with
                     | Ok value => value
                     | Raise _ => VStr "Error Processing Field"
                     end
                   | None => VStr "N/A"
                   end)).
  by rewrite lookup_empty.
Qed.

(** ** Identity resolution of a show *)

Lemma append_empty_r (s : string) : s +:+ "" = s.
Proof.
  induction s as [|c s IH]; [done|].
  change (String c s +:+ "") with (String c (s +:+ "")). by rewrite IH.
Qed.

Lemma append_assoc (s1 s2 s3 : string) : (s1 +:+ s2) +:+ s3 = s1 +:+ (s2 +:+ s3).
Proof.
  induction s1 as [|c s1 IH]; [done|].
  change ((String c s1 +:+ s2) +:+ s3) with (String c ((s1 +:+ s2) +:+ s3)).
  by rewrite IH.
Qed.

(** Without an occurrence of the separator, [split] returns the text whole. *)
Lemma split_go_no_occurrence (sep s cur : string) :
  occurs_in sep s = false → split_go sep 0 s cur = [cur +:+ s].
Proof.
  revert cur. induction s as [|c s IH]; intros cur Hocc.
  { cbn [split_go]. by rewrite append_empty_r. }
  cbn [occurs_in] in Hocc. apply orb_false_iff in Hocc as [Hpre Hocc].
  cbn [split_go]. rewrite Hpre, IH by done.
  by rewrite append_assoc.
Qed.

(** The id of the remote lookup: for the first guid that starts with
    imdb://, the text after that prefix, when the prefix does not occur in it
    again. *)
Theorem imdb_id_of_first_imdb_guid (before after : list string) (rest : string) :
  Forall (λ guid_id, String.prefix "imdb://" guid_id = false) before →
  occurs_in "imdb://" rest = false →
  imdb_id_of (before ++ ("imdb://" +:+ rest) :: after) = Some rest.
Proof.
  intros Hbefore Hrest. unfold imdb_id_of.
  assert (List.find (String.prefix "imdb://")
            (before ++ ("imdb://" +:+ rest) :: after)
          = Some ("imdb://" +:+ rest)) as ->.
  { induction Hbefore as [|g before Hg _ IH]; simpl.
    - by destruct rest.
    - by rewrite Hg. }
  unfold split.
  change ("imdb://" +:+ rest)
    with (String "i" (String "m" (String "d" (String "b" (String ":"
            (String "/" (String "/" rest))))))).
  cbn [split_go].
  assert (String.prefix "imdb://"
            (String "i" (String "m" (String "d" (String "b" (String ":"
               (String "/" (String "/" rest)))))))
          = true) as -> by (by destruct rest).
  cbn [String.length Nat.sub split_go].
  rewrite split_go_no_occurrence by done. reflexivity.
Qed.

Lemma imdb_id_of_first_imdb_guid_witness :
  imdb_id_of (["tvdb://7"] ++ ("imdb://" +:+ "tt0000001") :: ["imdb://tt2"])
  = Some "tt0000001".
Proof.
  apply (imdb_id_of_first_imdb_guid ["tvdb://7"] ["imdb://tt2"] "tt0000001").
  - repeat constructor.
  - reflexivity.
Defined.

Section LookupOrderFacts.
Variable field_processors : gmap string (PlexShow → Result Value).
Variable SELECTED_SHOW_FIELDS : list string.
Variable tvmaze_lookup : string → bool → M (option TVMazeShowInfo).

(** The id is preferred: when the lookup by IMDB id finds the show, no lookup
    by title is made; the record holds what the id lookup found, and the
    world is the one that lookup left. *)
Theorem id_lookup_preferred (show_obj : PlexShow) (guid_ids : list string)
    (imdb_id : string) (info : TVMazeShowInfo) (w w1 : World) :
  guids show_obj = Ok guid_ids →
  imdb_id_of guid_ids = Some imdb_id →
  imdb_id ≠ "" →
  tvmaze_lookup imdb_id true w = (Ok (Some info), w1) →
  process_single_show field_processors SELECTED_SHOW_FIELDS tvmaze_lookup
    show_obj w
  = (Ok {| fields := process_show_metadata field_processors
                                           SELECTED_SHOW_FIELDS show_obj;
           seasons_in_plex :=
             match show_seasons show_obj with
             | Ok l => collect_plex_seasons l ∅
             | Raise _ => ∅
             end;
           tvmaze_info := Some info;
           max_seasons := Some (total_seasons info) |}, w1).
Proof.
  intros Hguids Hid Hne Hlookup.
  unfold process_single_show, try_except, process_single_show_try, bind, lift, ret.
  rewrite Hguids, Hid. simpl.
  destruct (String.eqb_spec imdb_id "") as [|_]; [done|]. simpl.
  by rewrite Hlookup.
Qed.

(** The title is the fallback: when the show has an IMDB id and the lookup by
    that id finds nothing, the title ([originalTitle] if it has one, else
    [title]) is looked up next, provided it is not blank, and the record
    holds what that lookup returns. *)
Theorem title_lookup_fallback (show_obj : PlexShow) (guid_ids : list string)
    (imdb_id search_title : string) (found : option TVMazeShowInfo)
    (w w1 w2 : World) :
  guids show_obj = Ok guid_ids →
  imdb_id_of guid_ids = Some imdb_id →
  imdb_id ≠ "" →
  tvmaze_lookup imdb_id true w = (Ok None, w1) →
  search_title = (if truthy (originalTitle show_obj)
                  then default "" (originalTitle show_obj)
                  else title show_obj) →
  strip_is_nonempty search_title = true →
  tvmaze_lookup search_title false w1 = (Ok found, w2) →
  process_single_show field_processors SELECTED_SHOW_FIELDS tvmaze_lookup
    show_obj w
  = (Ok {| fields := process_show_metadata field_processors
                                           SELECTED_SHOW_FIELDS show_obj;
           seasons_in_plex :=
             match show_seasons show_obj with
             | Ok l => collect_plex_seasons l ∅
             | Raise _ => ∅
             end;
           tvmaze_info := found;
           max_seasons := Some (from_option total_seasons 0 found) |}, w2).
Proof.
  intros Hguids Hid Hne Hlookup Htitle Hstrip Hbytitle.
  unfold process_single_show, try_except, process_single_show_try, bind, lift, ret.
  rewrite Hguids, Hid. simpl.
  destruct (String.eqb_spec imdb_id "") as [|_]; [done|]. simpl.
  rewrite Hlookup. rewrite <- Htitle.
  assert (search_title ≠ "") as Hnonempty.
  { intros ->. by vm_compute in Hstrip. }
  destruct (String.eqb_spec search_title "") as [|_]; [done|]. simpl.
  rewrite Hstrip, Hbytitle. by destruct found.
Qed.

(** A show without an IMDB guid and with a blank title is looked up
    nowhere. *)
Lemma no_lookup_without_id_and_title (show_obj : PlexShow)
    (guid_ids : list string) (w : World) :
  guids show_obj = Ok guid_ids →
  imdb_id_of guid_ids = None →
  originalTitle show_obj = None →
  strip_is_nonempty (title show_obj) = false →
  process_single_show field_processors SELECTED_SHOW_FIELDS tvmaze_lookup
    show_obj w
  = (Ok {| fields := process_show_metadata field_processors
                                           SELECTED_SHOW_FIELDS show_obj;
           seasons_in_plex :=
             match show_seasons show_obj with
             | Ok l => collect_plex_seasons l ∅
             | Raise _ => ∅
             end;
           tvmaze_info := None;
           max_seasons := Some 0 |}, w).
Proof.
  intros Hguids Hid Horig Hstrip.
  unfold process_single_show, try_except, process_single_show_try, bind, lift, ret.
  rewrite Hguids, Hid, Horig. simpl. rewrite Hstrip.
  by rewrite andb_false_r.
Qed.
End LookupOrderFacts.

Lemma id_lookup_preferred_witness :
  process_single_show sample_processors ["Title"; "Year"]
    (get_tvmaze_show_info reliable_server) healthy_show fresh_world
  = (Ok {| fields := process_show_metadata sample_processors ["Title"; "Year"]
                                           healthy_show;
           seasons_in_plex :=
             match show_seasons healthy_show with
             | Ok l => collect_plex_seasons l ∅
             | Raise _ => ∅
             end;
           tvmaze_info := Some show_42;
           max_seasons := Some (total_seasons show_42) |},
     {| cache := {[ "imdb:tt0000001" := {| timestamp := 0; data := Some show_42 |} ]};
        clock := 0; requests := 2; sleeps := [] |}).
Proof.
  apply (id_lookup_preferred sample_processors ["Title"; "Year"]
           (get_tvmaze_show_info reliable_server) healthy_show
           ["tvdb://7"; "imdb://tt0000001"] "tt0000001" show_42 fresh_world).
  - reflexivity.
  - reflexivity.
  - discriminate.
  - vm_compute. reflexivity.
Defined.

Lemma title_lookup_fallback_witness :
  process_single_show sample_processors ["Title"; "Year"]
    (get_tvmaze_show_info title_only_server) healthy_show fresh_world
  = (Ok {| fields := process_show_metadata sample_processors ["Title"; "Year"]
                                           healthy_show;
           seasons_in_plex :=
             match show_seasons healthy_show with
             | Ok l => collect_plex_seasons l ∅
             | Raise _ => ∅
             end;
           tvmaze_info := Some show_42;
           max_seasons := Some (from_option total_seasons 0 (Some show_42)) |},
     {| cache := {[ "title:Alpha" := {| timestamp := 0; data := Some show_42 |} ]};
        clock := 0; requests := 3; sleeps := [] |}).
Proof.
  apply (title_lookup_fallback sample_processors ["Title"; "Year"]
           (get_tvmaze_show_info title_only_server) healthy_show
           ["tvdb://7"; "imdb://tt0000001"] "tt0000001" "Alpha" (Some show_42)
           fresh_world
           {| cache := ∅; clock := 0; requests := 1; sleeps := [] |}).
  - reflexivity.
  - reflexivity.
  - discriminate.
  - vm_compute. reflexivity.
  - reflexivity.
  - reflexivity.
  - vm_compute. reflexivity.
Defined.

(** ** Local season data *)

(** What the loop over the seasons collects: under each key a record with
    that season number and with the episode count of a season of the show
    that has this number; a season without a number, or with a number [int]
    rejects, gives no entry. *)
Theorem collected_seasons_come_from_plex (l : list PlexSeason) (season_num : Z)
    (plex_s_data : PlexSeasonData) :
  collect_plex_seasons l ∅ !! season_num = Some plex_s_data →
  season_number plex_s_data = season_num
  ∧ ∃ s, s ∈ l ∧ seasonNumber s = Some (Ok season_num)
         ∧ leafCount s = episodes_in_plex plex_s_data.
Proof.
  assert (∀ start : gmap Z PlexSeasonData,
            collect_plex_seasons l start !! season_num = Some plex_s_data →
            start !! season_num = Some plex_s_data
            ∨ (season_number plex_s_data = season_num
               ∧ ∃ s, s ∈ l ∧ seasonNumber s = Some (Ok season_num)
                      ∧ leafCount s = episodes_in_plex plex_s_data)) as Hgen.
  { induction l as [|s l IH]; intros start Hlook; simpl in Hlook; [by left|].
    destruct (seasonNumber s) as [[n|e]|] eqn:Hnum.
    - destruct (IH _ Hlook) as [Hstart|(Hn & s' & Hin & Hs' & Hleaf)].
      + destruct (decide (n = season_num)) as [->|Hne].
        * rewrite lookup_insert_eq in Hstart. injection Hstart as <-.
          right. split; [done|]. exists s. split; [by left | done].
        * rewrite lookup_insert_ne in Hstart by done. by left.
      + right. split; [done|]. exists s'. split; [by right | done].
    - destruct e.
      + by left.
      + destruct (IH _ Hlook) as [Hstart|(Hn & s' & Hin & Hs' & Hleaf)];
          [by left|].
        right. split; [done|]. exists s'. split; [by right | done].
      + by left.
    - destruct (IH _ Hlook) as [Hstart|(Hn & s' & Hin & Hs' & Hleaf)];
        [by left|].
      right. split; [done|]. exists s'. split; [by right | done]. }
  intros Hlook. destruct (Hgen ∅ Hlook) as [Hempty|Hres]; [|done].
  by rewrite lookup_empty in Hempty.
Qed.

Lemma collected_seasons_come_from_plex_witness :
  season_number {| episodes_in_plex := 2; season_number := 1 |} = 1
  ∧ ∃ s, s ∈ [ {| seasonNumber := None; leafCount := 9 |};
               {| seasonNumber := Some (Ok 1); leafCount := 2 |} ]
         ∧ seasonNumber s = Some (Ok 1)
         ∧ leafCount s
           = episodes_in_plex {| episodes_in_plex := 2; season_number := 1 |}.
Proof.
  apply (collected_seasons_come_from_plex
           [ {| seasonNumber := None; leafCount := 9 |};
             {| seasonNumber := Some (Ok 1); leafCount := 2 |} ] 1
           {| episodes_in_plex := 2; season_number := 1 |}).
  reflexivity.
Defined.

(** ** Season cells and the series cell *)

Lemma season_cell_green_cases (season_num : Z)
    (tvmaze_info : option TVMazeShowInfo)
    (plex_seasons_data : gmap Z PlexSeasonData) :
  (_calculate_season_cell season_num tvmaze_info plex_seasons_data).2 = Some green
  ↔ ∃ tv, remote_entry tvmaze_info season_num = Some tv
          ∧ total_episodes tv ≠ 0
          ∧ total_episodes tv ≤ plex_episode_count plex_seasons_data season_num.
Proof.
  unfold _calculate_season_cell, remote_entry.
  destruct tvmaze_info as [info|]; simpl.
  - case_bool_decide as Hne.
    + destruct (seasons info !! season_num) as [tv|] eqn:Htv; simpl.
      * destruct (Z.eqb_spec (total_episodes tv) 0) as [Hz|Hnz]; simpl.
        { split.
          - by destruct (_ =? 0).
          - intros (tv' & [= <-] & Hnz & _). done. }
        destruct (Z.geb_spec (plex_episode_count plex_seasons_data season_num)
                             (total_episodes tv)) as [Hge|Hlt]; simpl.
        { split; [|done]. intros _. exists tv. split; [done|]. split; [done | lia]. }
        split.
        -- by destruct (_ >? 0).
        -- intros (tv' & [= <-] & _ & Hle). lia.
      * split; [by destruct (_ >? 0) | by intros (tv & ? & _)].
    + assert (seasons info !! season_num = None) as ->.
      { destruct (decide (seasons info = ∅)) as [->|Hn]; [apply lookup_empty|].
        by destruct Hne. }
      split; [by repeat case_match | by intros (tv & ? & _)].
  - split; [by repeat case_match | by intros (tv & ? & _)].
Qed.

(** A season is shown complete only on remote evidence: the cell is green
    exactly when the remote info has an entry for the season with a count
    other than 0 that the local count reaches. *)
Theorem season_cell_green_iff (season_num : Z)
    (tvmaze_info : option TVMazeShowInfo)
    (plex_seasons_data : gmap Z PlexSeasonData) :
  (_calculate_season_cell season_num tvmaze_info plex_seasons_data).2 = Some green
  ↔ ∃ tv, remote_entry tvmaze_info season_num = Some tv
          ∧ total_episodes tv ≠ 0
          ∧ total_episodes tv ≤ plex_episode_count plex_seasons_data season_num.
Proof. apply season_cell_green_cases. Qed.

(** A remote entry without episodes: the text is local/0, on gray when the
    local count is 0 too and on the yellow attention fill otherwise. *)
Theorem season_cell_remote_zero (season_num : Z) (info : TVMazeShowInfo)
    (plex_seasons_data : gmap Z PlexSeasonData) (tv : TVMazeSeasonInfo) :
  seasons info !! season_num = Some tv →
  total_episodes tv = 0 →
  _calculate_season_cell season_num (Some info) plex_seasons_data
  = (str (plex_episode_count plex_seasons_data season_num) +:+ "/" +:+ str 0,
     Some (if plex_episode_count plex_seasons_data season_num =? 0
           then gray else yellow)).
Proof.
  intros Hlook Hzero. unfold _calculate_season_cell.
  rewrite bool_decide_true by (by eapply seasons_nonempty_of_lookup).
  rewrite Hlook. cbv zeta. by rewrite Hzero.
Qed.

Lemma season_cell_remote_zero_witness :
  _calculate_season_cell 3
    (Some {| total_seasons := 3; seasons := {[ 3 := {| total_episodes := 0 |} ]} |})
    (plex_of [(3, 4)])
  = (str (plex_episode_count (plex_of [(3, 4)]) 3) +:+ "/" +:+ str 0,
     Some (if plex_episode_count (plex_of [(3, 4)]) 3 =? 0 then gray else yellow)).
Proof.
  apply (season_cell_remote_zero 3
           {| total_seasons := 3; seasons := {[ 3 := {| total_episodes := 0 |} ]} |}
           (plex_of [(3, 4)]) {| total_episodes := 0 |}).
  - reflexivity.
  - reflexivity.
Defined.

Lemma filter_and_length_eq {A} (P Q : A → Prop)
    `{∀ x, Decision (P x)} `{∀ x, Decision (P x ∧ Q x)} (l : list A) :
  length (filter (λ x, P x ∧ Q x) l) = length (filter P l)
  ↔ Forall (λ x, P x → Q x) l.
Proof.
  induction l as [|x l IH]; [done|].
  pose proof (filter_and_length_le P Q l) as Hle.
  rewrite !filter_cons, Forall_cons.
  destruct (decide (P x ∧ Q x)) as [[HP HQ]|Hn].
  - rewrite decide_True by done. simpl. rewrite <- IH. split.
    + intros Heq. split; [done | lia].
    + intros [_ Heq]. lia.
  - destruct (decide (P x)) as [HP|HP]; simpl.
    + split; [lia|]. intros [HQ _]. destruct Hn. auto.
    + rewrite <- IH. split.
      * intros Heq. split; [by intros ? | done].
      * by intros [_ Heq].
Qed.

(** The series cell agrees with the season cells: with remote season numbers
    and remote counts that are not negative, the series is green exactly when
    the remote info lists a regular season and the cell of every regular
    season it lists is green. *)
Theorem series_green_iff_seasons_green (info : TVMazeShowInfo)
    (plex_seasons_data : gmap Z PlexSeasonData) :
  (∀ k, k ∈ dom (seasons info) → 0 ≤ k) →
  (∀ k tv, seasons info !! k = Some tv → 0 ≤ total_episodes tv) →
  (_calculate_series_completion (Some info) plex_seasons_data).2 = Some green
  ↔ (∃ k, 0 < k ∧ k ∈ dom (seasons info))
    ∧ ∀ k, 0 < k → k ∈ dom (seasons info) →
           (_calculate_season_cell k (Some info) plex_seasons_data).2 = Some green.
Proof.
  intros Hkeys Hcounts.
  rewrite series_completion_some by done. cbn [snd].
  pose proof (complete_regular_seasons_bounds info plex_seasons_data) as Hb.
  assert (0 < count_regular (seasons info)
          ↔ ∃ k, 0 < k ∧ k ∈ dom (seasons info)) as Hden.
  { unfold count_regular. split.
    - intros Hpos.
      destruct (filter (λ kv : Z * TVMazeSeasonInfo, 0 < kv.1)
                       (map_to_list (seasons info))) as [|[k tv] rest] eqn:Hf;
        [simpl in Hpos; lia|].
      assert ((k, tv) ∈ filter (λ kv : Z * TVMazeSeasonInfo, 0 < kv.1)
                               (map_to_list (seasons info))) as Hin
        by (rewrite Hf; by left).
      apply list_elem_of_filter in Hin as [Hk Hin].
      apply elem_of_map_to_list in Hin.
      exists k. split; [done|]. apply elem_of_dom. by exists tv.
    - intros (k & Hk & [tv Htv]%elem_of_dom).
      assert ((k, tv) ∈ filter (λ kv : Z * TVMazeSeasonInfo, 0 < kv.1)
                               (map_to_list (seasons info))) as Hin.
      { apply list_elem_of_filter. split; [done|]. by apply elem_of_map_to_list. }
      destruct (filter _ _); [by apply elem_of_nil in Hin | simpl; lia]. }
  assert (complete_regular_seasons info plex_seasons_data
          = count_regular (seasons info)
          ↔ ∀ k, 0 < k → k ∈ dom (seasons info) →
                 (_calculate_season_cell k (Some info) plex_seasons_data).2
                 = Some green) as Hnum.
  { unfold complete_regular_seasons, count_regular.
    rewrite Nat2Z.inj_iff.
    rewrite (filter_and_length_eq (λ kv : Z * TVMazeSeasonInfo, 0 < kv.1)
               (λ kv, total_episodes kv.2 ≤ plex_episode_count plex_seasons_data kv.1
                      ∧ 0 < total_episodes kv.2)).
    rewrite Forall_forall. split.
    - intros Hall k Hk [tv Htv]%elem_of_dom.
      apply season_cell_green_cases. exists tv. cbn [remote_entry mbind option_bind].
      specialize (Hall (k, tv)). cbn [fst snd] in Hall.
      destruct Hall as [Hle Hpos]; [by apply elem_of_map_to_list | done |].
      split; [done|]. split; [lia | done].
    - intros Hall [k tv] Hin Hk. cbn [fst snd] in *.
      apply elem_of_map_to_list in Hin.
      assert (k ∈ dom (seasons info)) as Hdom by (apply elem_of_dom; by exists tv).
      specialize (Hall k Hk Hdom).
      apply season_cell_green_cases in Hall as (tv' & Hentry & Hnz & Hle).
      cbn [remote_entry mbind option_bind] in Hentry.
      rewrite Hin in Hentry. injection Hentry as <-.
      specialize (Hcounts k tv Hin). split; [done | lia]. }
  rewrite <- Hden, <- Hnum.
  destruct (Z.eqb_spec (count_regular (seasons info)) 0) as [Hz|Hnz].
  { split; [done | lia]. }
  destruct (Z.geb_spec (complete_regular_seasons info plex_seasons_data)
                       (count_regular (seasons info))) as [Hge|Hlt].
  { split; [|done]. intros _. lia. }
  split; [by destruct (_ >? 0) | lia].
Qed.

Lemma series_green_iff_seasons_green_witness :
  (_calculate_series_completion (Some remote_two_seasons)
     (plex_of [(1, 10); (2, 8)])).2 = Some green
  ↔ (∃ k, 0 < k ∧ k ∈ dom (seasons remote_two_seasons))
    ∧ ∀ k, 0 < k → k ∈ dom (seasons remote_two_seasons) →
           (_calculate_season_cell k (Some remote_two_seasons)
              (plex_of [(1, 10); (2, 8)])).2 = Some green.
Proof.
  apply (series_green_iff_seasons_green remote_two_seasons
           (plex_of [(1, 10); (2, 8)])).
  - intros k Hk. apply elem_of_dom in Hk as [tv Hk].
    destruct (decide (k = 1)) as [->|?]; [done|].
    destruct (decide (k = 2)) as [->|?]; [done|].
    exfalso. unfold remote_two_seasons in Hk. simpl in Hk.
    rewrite lookup_insert_ne in Hk by done.
    by rewrite lookup_singleton_ne in Hk.
  - intros k tv Hk.
    destruct (decide (k = 1)) as [->|?]; [by injection Hk as <-|].
    destruct (decide (k = 2)) as [->|?]; [by injection Hk as <-|].
    exfalso. unfold remote_two_seasons in Hk. simpl in Hk.
    rewrite lookup_insert_ne in Hk by done.
    by rewrite lookup_singleton_ne in Hk.
Defined.

(** ** Headers and rows of the sheet *)

Lemma season_headers_columns (shows_data_full : list ShowData)
    (max_seasons_overall : Z) :
  season_headers shows_data_full max_seasons_overall
  = (λ i, "S" +:+ fmt_02d i) <$> season_columns shows_data_full max_seasons_overall.
Proof.
  unfold season_headers, season_columns. rewrite fmap_app.
  by destruct (has_specials shows_data_full).
Qed.

Lemma season_columns_nonneg (shows_data_full : list ShowData)
    (max_seasons_overall : Z) :
  Forall (λ i, 0 ≤ i) (season_columns shows_data_full max_seasons_overall).
Proof.
  unfold season_columns. apply Forall_app. split.
  - destruct (has_specials shows_data_full); by repeat constructor.
  - apply Forall_forall. intros i Hi. apply elem_of_seqZ in Hi. lia.
Qed.

(** Rows line up with the headers: for the headers the sheet is given, a row
    is written without error, it has one cell per header, and after the base
    fields and the series status it holds, in the order of the season
    headers, the cell of the specials (if they have a column) and the cells
    of the seasons 1 to the overall maximum. *)
Theorem row_matches_headers (SELECTED_SHOW_FIELDS : list string)
    (shows_data_full : list ShowData) (max_seasons_overall : Z)
    (show_info_full : ShowData) :
  (_generate_tv_show_headers SELECTED_SHOW_FIELDS shows_data_full
     max_seasons_overall).2
  = (λ i, "S" +:+ fmt_02d i) <$> season_columns shows_data_full max_seasons_overall
  ∧ _write_tv_show_row SELECTED_SHOW_FIELDS show_info_full
      (_generate_tv_show_headers SELECTED_SHOW_FIELDS shows_data_full
         max_seasons_overall).2
    = Some (base_cells SELECTED_SHOW_FIELDS show_info_full
            ++ [styled_cell (_calculate_series_completion
                               (tvmaze_info show_info_full)
                               (seasons_in_plex show_info_full))]
            ++ ((λ i, styled_cell (_calculate_season_cell i
                                     (tvmaze_info show_info_full)
                                     (seasons_in_plex show_info_full)))
                  <$> season_columns shows_data_full max_seasons_overall))
  ∧ ∀ cells,
      _write_tv_show_row SELECTED_SHOW_FIELDS show_info_full
        (_generate_tv_show_headers SELECTED_SHOW_FIELDS shows_data_full
           max_seasons_overall).2 = Some cells →
      length cells
      = length (_generate_tv_show_headers SELECTED_SHOW_FIELDS shows_data_full
                  max_seasons_overall).1.
Proof.
  unfold _generate_tv_show_headers. cbv zeta. cbn [fst snd].
  assert (_write_tv_show_row SELECTED_SHOW_FIELDS show_info_full
            (season_headers shows_data_full max_seasons_overall)
          = Some (base_cells SELECTED_SHOW_FIELDS show_info_full
                  ++ [styled_cell (_calculate_series_completion
                                     (tvmaze_info show_info_full)
                                     (seasons_in_plex show_info_full))]
                  ++ ((λ i, styled_cell (_calculate_season_cell i
                                           (tvmaze_info show_info_full)
                                           (seasons_in_plex show_info_full)))
                        <$> season_columns shows_data_full max_seasons_overall)))
    as Hrow.
  { unfold _write_tv_show_row.
    rewrite season_headers_columns.
    rewrite season_cells_regular by apply season_columns_nonneg.
    cbn [mbind option_bind]. do 3 f_equal.
    rewrite <- !list_fmap_compose. by apply list_fmap_ext. }
  split; [apply season_headers_columns|]. split; [exact Hrow|].
  intros cells Hcells. rewrite Hrow in Hcells. injection Hcells as <-.
  rewrite season_headers_columns.
  unfold base_cells. rewrite !length_app, !length_fmap. simpl.
  by rewrite !length_fmap.
Qed.

(** No two season columns carry the same header. *)
Theorem season_headers_distinct (shows_data_full : list ShowData)
    (max_seasons_overall : Z) :
  NoDup (season_headers shows_data_full max_seasons_overall).
Proof.
  rewrite season_headers_columns.
  apply NoDup_fmap_2_strong.
  - intros i j Hi Hj Heq.
    pose proof (season_columns_nonneg shows_data_full max_seasons_overall) as Hnn.
    rewrite Forall_forall in Hnn.
    assert (int_of_str (fmt_02d i) = int_of_str (fmt_02d j)) as Hparse.
    { change (fmt_02d i) with (drop_first ("S" +:+ fmt_02d i)).
      change (fmt_02d j) with (drop_first ("S" +:+ fmt_02d j)).
      by rewrite Heq. }
    rewrite !int_of_str_fmt_02d in Hparse by (by apply Hnn).
    by injection Hparse.
  - unfold season_columns. apply NoDup_app. split; [|split].
    + destruct (has_specials shows_data_full); [|constructor].
      apply NoDup_singleton.
    + intros i Hi Hseq. apply elem_of_seqZ in Hseq.
      destruct (has_specials shows_data_full); [|by apply elem_of_nil in Hi].
      apply list_elem_of_singleton in Hi. lia.
    + apply NoDup_seqZ.
Qed.

(** ** Configuration *)

Lemma filter_all {A} (P : A → Prop) `{∀ x, Decision (P x)} (l : list A) :
  Forall P l → filter P l = l.
Proof.
  induction 1 as [|x l Hx _ IH]; [done|].
  by rewrite filter_cons, decide_True, IH.
Qed.

Lemma parse_field_list_nonempty_names (text : string) :
  filter (λ field, field ≠ "") (parse_field_list text) = parse_field_list text.
Proof.
  apply filter_all. apply Forall_forall. intros field Hin.
  unfold parse_field_list in Hin. by apply list_elem_of_filter in Hin as [? _].
Qed.

(** The fields exported for shows: whatever the variable holds, the list is
    never empty and holds names the script can export only; it is the valid
    names of the variable, in the order and as often as the user wrote them,
    and the defaults when the variable is not set or names no valid field. *)
Theorem selected_show_fields_valid (user_defined_show_fields_str : option string) :
  selected_show_fields user_defined_show_fields_str ≠ []
  ∧ Forall (λ field, field ∈ ALL_POSSIBLE_SHOW_FIELDS)
           (selected_show_fields user_defined_show_fields_str)
  ∧ selected_show_fields user_defined_show_fields_str
    = match user_defined_show_fields_str with
      | Some text =>
        match filter (λ field, field ∈ ALL_POSSIBLE_SHOW_FIELDS)
                     (parse_field_list text) with
        | [] => DEFAULT_SHOW_FIELDS
        | selected => selected
        end
      | None => DEFAULT_SHOW_FIELDS
      end.
Proof.
  split; [|split].
  - unfold selected_show_fields, select_show_fields.
    destruct user_defined_show_fields_str as [text|]; simpl; [|done].
    by destruct (filter _ (filter _ (parse_field_list text))).
  - apply select_show_fields_possible.
  - unfold selected_show_fields, select_show_fields.
    destruct user_defined_show_fields_str as [text|]; simpl; [|done].
    by rewrite parse_field_list_nonempty_names.
Qed.

(** The names are read with the blanks around them removed and the empty
    pieces dropped. *)
Example parse_field_list_sample :
  parse_field_list " Title , Year,,Bogus ,	Genres" = ["Title"; "Year"; "Bogus"; "Genres"]
  ∧ selected_show_fields (Some " Title , Year,,Bogus ,	Genres")
    = ["Title"; "Year"; "Genres"]
  ∧ selected_show_fields (Some "Bogus, ,") = DEFAULT_SHOW_FIELDS
  ∧ selected_show_fields (Some "") = DEFAULT_SHOW_FIELDS.
Proof. vm_compute. done. Qed.

(** White space of several bytes is removed like a blank: a no-break space
    (U+00A0, the bytes C2 A0) after a name and an ideographic space (U+3000,
    the bytes E3 80 80) before one; a text of such characters only is empty
    once stripped.  The letter U+00E0 (C3 A0) ends in the second byte of the
    no-break space and stays. *)
Example parse_field_list_wide_white_space :
  let no_break_space := String (ascii_of_nat 194) (String (ascii_of_nat 160) "") in
  let ideographic_space :=
    String (ascii_of_nat 227)
      (String (ascii_of_nat 128) (String (ascii_of_nat 128) "")) in
  let a_grave := String (ascii_of_nat 195) (String (ascii_of_nat 160) "") in
  parse_field_list ("Title" +:+ no_break_space +:+ "," +:+ ideographic_space +:+ "Year")
  = ["Title"; "Year"]
  ∧ selected_show_fields
      (Some ("Title" +:+ no_break_space +:+ "," +:+ ideographic_space +:+ "Year"))
    = ["Title"; "Year"]
  ∧ strip (no_break_space +:+ ideographic_space) = ""
  ∧ strip_is_nonempty (no_break_space +:+ ideographic_space) = false
  ∧ strip (" " +:+ a_grave +:+ no_break_space) = a_grave
  ∧ len (a_grave +:+ ideographic_space +:+ "a") = 3%nat.
Proof. vm_compute. done. Qed.

(** The start-up check: the configuration has no error exactly when the URL
    is set and starts with http:// or https:// and the token is set and not
    empty; a short token, the export directory and the field lists give
    warnings at most. *)
Theorem validation_passes_iff (env : Environment) :
  (validate_environment env).1 = []
  ↔ (∃ url, PLEX_URL env = Some url
            ∧ (String.prefix "http://" url = true
               ∨ String.prefix "https://" url = true))
    ∧ (∃ token, PLEX_TOKEN env = Some token ∧ token ≠ "").
Proof.
  unfold validate_environment. cbv zeta. cbn [fst].
  destruct (PLEX_URL env) as [url|], (PLEX_TOKEN env) as [token|];
    cbn [truthy default from_option id negb].
  - destruct (String.eqb_spec url "") as [->|Hurl];
      destruct (String.eqb_spec token "") as [->|Htoken]; cbn [negb].
    + split; [done|]. by intros [_ (t & [= <-] & Ht)].
    + split; [done|]. intros [(u & [= <-] & [Hp|Hp]) _]; by vm_compute in Hp.
    + split; [by destruct (negb _) | by intros [_ (t & [= <-] & Ht)]].
    + destruct (String.prefix "http://" url) eqn:H1;
        destruct (String.prefix "https://" url) eqn:H2; cbn [orb negb app].
      * split; [|done]. intros _. split; [by eauto | by eauto].
      * split; [|done]. intros _. split; [by eauto | by eauto].
      * split; [|done]. intros _. split; [by eauto | by eauto].
      * split; [done|]. intros [(u & [= <-] & [Hp|Hp]) _]; congruence.
  - split; [by intros [_ [=]]%app_eq_nil | by intros [_ (t & ? & _)]].
  - split; [done | by intros [(u & ? & _) _]].
  - split; [done | by intros [(u & ? & _) _]].
Qed.

(** A token shorter than ten characters is accepted, with a warning. *)
Example validation_short_token :
  validate_environment
    {| PLEX_URL := Some "http://plex.local:32400";
       PLEX_TOKEN := Some "abc";
       PLEX_EXPORT_DIR := ".";
       export_dir_is_abs := false;
       user_defined_movie_fields_str := None;
       user_defined_show_fields_str := Some "Bogus" |}
  = ([],
     [ "PLEX_TOKEN seems too short, verify it's correct";
       "PLEX_EXPORT_DIR should be an absolute path for clarity";
       "PLEX_SHOW_EXPORT_FIELDS contains no valid fields, using defaults" ]).
Proof. vm_compute. reflexivity. Qed.

(** The length of the token is counted in characters: five letters of two
    bytes each are fewer than ten. *)
Example validation_short_token_of_ten_bytes :
  let e_acute := String (ascii_of_nat 195) (String (ascii_of_nat 169) "") in
  validate_environment
    {| PLEX_URL := Some "http://plex.local:32400";
       PLEX_TOKEN :=
         Some (e_acute +:+ e_acute +:+ e_acute +:+ e_acute +:+ e_acute);
       PLEX_EXPORT_DIR := "";
       export_dir_is_abs := false;
       user_defined_movie_fields_str := None;
       user_defined_show_fields_str := None |}
  = ([], [ "PLEX_TOKEN seems too short, verify it's correct" ]).
Proof. vm_compute. reflexivity. Qed.

(** The warning about the show fields is given exactly when the variable is
    set to a non-empty text none of whose names is valid, which is when a
    setting of the user is replaced by the defaults. *)
Theorem show_fields_warning_iff_fallback (env : Environment) :
  "PLEX_SHOW_EXPORT_FIELDS contains no valid fields, using defaults"
    ∈ (validate_environment env).2
  ↔ ∃ text, user_defined_show_fields_str env = Some text
            ∧ text ≠ ""
            ∧ filter (λ field, field ∈ ALL_POSSIBLE_SHOW_FIELDS)
                     (parse_field_list text) = [].
Proof.
  unfold validate_environment. cbv zeta. cbn [snd].
  assert (∀ (b : bool) (msg : string),
            msg ≠ "PLEX_SHOW_EXPORT_FIELDS contains no valid fields, using defaults" →
            "PLEX_SHOW_EXPORT_FIELDS contains no valid fields, using defaults"
              ∈ (if b then [msg] else []) ↔ False) as Hother.
  { intros b msg Hmsg. destruct b; [|by rewrite elem_of_nil].
    rewrite list_elem_of_singleton. split; [by intros <- | done]. }
  rewrite !elem_of_app.
  rewrite !Hother by discriminate.
  assert (no_valid_field ALL_POSSIBLE_SHOW_FIELDS (user_defined_show_fields_str env)
          = true
          ↔ ∃ text, user_defined_show_fields_str env = Some text
                    ∧ text ≠ ""
                    ∧ filter (λ field, field ∈ ALL_POSSIBLE_SHOW_FIELDS)
                             (parse_field_list text) = []) as Hiff.
  { unfold no_valid_field.
    destruct (user_defined_show_fields_str env) as [text|];
      [|split; [done | by intros (t & ? & _)]].
    rewrite andb_true_iff, !negb_true_iff.
    assert (existsb (λ field, bool_decide (field ∈ ALL_POSSIBLE_SHOW_FIELDS))
                    (parse_field_list text) = false
            ↔ filter (λ field, field ∈ ALL_POSSIBLE_SHOW_FIELDS)
                     (parse_field_list text) = []) as Hnone.
    { induction (parse_field_list text) as [|f fs IH]; [done|].
      cbn [existsb]. rewrite filter_cons, orb_false_iff, IH.
      destruct (decide (f ∈ ALL_POSSIBLE_SHOW_FIELDS)) as [Hin|Hnin].
      - rewrite bool_decide_true by done. split; [by intros [? _] | done].
      - rewrite bool_decide_false by done. split; [by intros [_ ?] | done]. }
    rewrite Hnone. destruct (String.eqb_spec text "") as [->|Hne].
    - split; [by intros [? _] | by intros (t & [= <-] & ? & _)].
    - split.
      + intros [_ Hf]. by exists text.
      + intros (t & [= <-] & _ & Hf). done. }
  rewrite <- Hiff.
  destruct (no_valid_field ALL_POSSIBLE_SHOW_FIELDS _).
  - split; [done|]. intros _. do 3 right. by left.
  - split; [|done]. intros [[]|[[]|[[]|Hin]]]. by apply elem_of_nil in Hin.
Qed.

(** ** Movies *)

Section MovieFacts.
Variable movie_field_processors
  : gmap string (PlexMovie → option PlexMedia → option PlexPart → Result Value).
Variable SELECTED_MOVIE_FIELDS : list string.

Lemma process_movie_readable (movie : PlexMovie) :
  (needs_media SELECTED_MOVIE_FIELDS = false
   ∨ ∃ l, movie_media movie = Ok l) →
  ∃ movie_data,
    process_movie movie_field_processors SELECTED_MOVIE_FIELDS movie
    = Ok movie_data
    ∧ ∀ field_name, is_Some (movie_data !! field_name)
                    ↔ field_name ∈ SELECTED_MOVIE_FIELDS.
Proof.
  intros Hread. unfold process_movie.
  assert (∃ media parts,
            (if needs_media SELECTED_MOVIE_FIELDS then
               match movie_media movie with
               | Ok l => Ok (head l, head l ≫= λ m, head (media_parts m))
               | Raise e => Raise e
               end
             else Ok (None, None)) = Ok (media, parts)) as (media & parts & ->).
  { destruct (needs_media SELECTED_MOVIE_FIELDS); [|by eauto].
    destruct Hread as [|[l ->]]; [done | by eauto]. }
  eexists. split; [reflexivity|]. intros field_name.
  rewrite (foldl_insert_lookup
             (λ n, match movie_field_processors !! n with
                   | Some processor =>
                     match processor movie media parts with
                     | Ok value => value
                     | Raise _ => VStr "Error Processing Field"
                     end
                   | None => VStr "N/A"
                   end)).
  destruct (decide (field_name ∈ SELECTED_MOVIE_FIELDS)) as [Hin|Hnin].
  - split; [done | by eexists].
  - rewrite lookup_empty. split; [by intros [? ?] | done].
Qed.

(** Movies are all or nothing.  With at least one field selected, when no
    selected field depends on the media or the media of every movie can be
    read, the batch returns one record per movie, in order, each with exactly
    the selected fields; but when a selected field depends on the media, one
    movie whose media cannot be read makes the whole batch raise: there is no
    handler around a movie as there is around a show. *)
Theorem movie_batch_all_or_nothing (movies : list PlexMovie) :
  SELECTED_MOVIE_FIELDS ≠ [] →
  ((needs_media SELECTED_MOVIE_FIELDS = false
    ∨ Forall (λ movie, ∃ l, movie_media movie = Ok l) movies) →
   ∃ records,
     get_movie_details movie_field_processors SELECTED_MOVIE_FIELDS movies
     = Ok records
     ∧ Forall2 (λ movie movie_data,
                  process_movie movie_field_processors SELECTED_MOVIE_FIELDS movie
                  = Ok movie_data
                  ∧ ∀ field_name, is_Some (movie_data !! field_name)
                                  ↔ field_name ∈ SELECTED_MOVIE_FIELDS)
               movies records)
  ∧ (needs_media SELECTED_MOVIE_FIELDS = true →
     ∀ movie e, movie ∈ movies → movie_media movie = Raise e →
                ∃ e', get_movie_details movie_field_processors
                        SELECTED_MOVIE_FIELDS movies = Raise e').
Proof.
  intros Hselected. split.
  - intros Hread.
    assert (∃ records,
              executor_map_movies movie_field_processors SELECTED_MOVIE_FIELDS
                movies = Ok records
              ∧ Forall2 (λ movie movie_data,
                  process_movie movie_field_processors SELECTED_MOVIE_FIELDS movie
                  = Ok movie_data
                  ∧ ∀ field_name, is_Some (movie_data !! field_name)
                                  ↔ field_name ∈ SELECTED_MOVIE_FIELDS)
                  movies records) as (records & Hmap & Hall).
    { induction movies as [|movie rest IH]; simpl.
      { exists []. split; [done | constructor]. }
      destruct (process_movie_readable movie) as (d & Hd & Hkeys).
      { destruct Hread as [?|Hall]; [by left|]. right.
        by apply Forall_cons in Hall as [? _]. }
      destruct IH as (others & Hmap & Hothers).
      { destruct Hread as [?|Hall]; [by left|]. right.
        by apply Forall_cons in Hall as [_ ?]. }
      rewrite Hd, Hmap. exists (d :: others). split; [done|].
      by constructor. }
    exists records. split; [|done].
    unfold get_movie_details. rewrite Hmap. f_equal.
    apply filter_all. clear Hmap Hread.
    induction Hall as [|movie d ms rs [_ Hkeys] _ IH]; [by constructor|].
    constructor; [|exact IH].
    intros ->. destruct SELECTED_MOVIE_FIELDS as [|f fs]; [done|].
    destruct (proj2 (Hkeys f)) as [v Hv]; [by left|].
    by rewrite lookup_empty in Hv.
  - intros Hneeds movie e Hin Hraise.
    assert (∃ e', executor_map_movies movie_field_processors
                    SELECTED_MOVIE_FIELDS movies = Raise e') as [e' Hmap].
    { induction movies as [|m rest IH]; [by apply elem_of_nil in Hin|].
      simpl. apply elem_of_cons in Hin as [<-|Hin].
      - unfold process_movie. rewrite Hneeds, Hraise. by eauto.
      - destruct (process_movie _ _ m) as [d|e0]; [|by eauto].
        destruct (IH Hin) as [e' ->]. by eauto. }
    exists e'. unfold get_movie_details. by rewrite Hmap.
Qed.
End MovieFacts.

Lemma movie_batch_all_or_nothing_witness :
  ∃ e', get_movie_details sample_movie_processors ["Title"; "Container"]
          [readable_movie; unreadable_movie] = Raise e'.
Proof.
  refine (proj2 (movie_batch_all_or_nothing sample_movie_processors
                   ["Title"; "Container"] [readable_movie; unreadable_movie] _)
                _ unreadable_movie OtherException _ _).
  - discriminate.
  - reflexivity.
  - right. left.
  - reflexivity.
Defined.

(** Without a field that depends on the media, the same two movies are both
    exported. *)
Example movies_without_media_fields :
  get_movie_details sample_movie_processors ["Title"]
    [readable_movie; unreadable_movie]
  = Ok [ {[ "Title" := VStr "Gamma" ]}; {[ "Title" := VStr "Delta" ]} ].
Proof. vm_compute. reflexivity. Qed.

(** ** Batches at the edges *)

(** The two batch functions differ on an empty list: the shows raise a
    [ValueError], because the pool is sized by the number of shows and cannot
    have 0 workers, while the movies return the empty list. *)
Theorem empty_batches
    (field_processors : gmap string (PlexShow → Result Value))
    (SELECTED_SHOW_FIELDS : list string)
    (tvmaze_lookup : string → bool → M (option TVMazeShowInfo))
    (movie_field_processors
       : gmap string (PlexMovie → option PlexMedia → option PlexPart → Result Value))
    (SELECTED_MOVIE_FIELDS : list string) (w : World) :
  get_show_details field_processors SELECTED_SHOW_FIELDS tvmaze_lookup [] w
  = (Raise ValueError, w)
  ∧ get_movie_details movie_field_processors SELECTED_MOVIE_FIELDS [] = Ok [].
Proof. split; reflexivity. Qed.

Section SeasonColumnFacts.
Variable field_processors : gmap string (PlexShow → Result Value).
Variable SELECTED_SHOW_FIELDS : list string.
Variable tvmaze_lookup : string → bool → M (option TVMazeShowInfo).

(** The season columns come from the remote side only: when no show of a
    batch has remote info, the overall maximum is 0 and the sheet gets no
    column for a regular season, whatever seasons the shows have locally; the
    only season header there can be is S00. *)
Theorem no_remote_match_no_season_columns (shows : list PlexShow) (w w' : World)
    (records : list ShowData) (max_seasons_overall : Z) :
  get_show_details field_processors SELECTED_SHOW_FIELDS tvmaze_lookup shows w
  = (Ok (records, max_seasons_overall), w') →
  Forall (λ show_data, tvmaze_info show_data = None) records →
  max_seasons_overall = 0
  ∧ ∀ header, header ∈ season_headers records max_seasons_overall
              → header = "S00".
Proof.
  intros Hdetails Hnone.
  assert (shows ≠ []) as Hne.
  { intros ->. by rewrite get_show_details_empty in Hdetails. }
  destruct (get_show_details_returns field_processors SELECTED_SHOW_FIELDS
              tvmaze_lookup shows w Hne) as (rs & w1 & _ & Hdet & _ & Hall).
  rewrite Hdet, collect_results_spec in Hdetails.
  injection Hdetails as Hrecords Hmax _.
  assert (max_seasons_overall = 0) as ->.
  { rewrite <- Hmax. clear Hmax. subst records.
    assert (Forall (λ c, c = 0)
              ((λ show_data, default 0 (max_seasons show_data)) <$> rs)) as Hzero.
    { apply Forall_fmap. rewrite Forall_fmap in Hnone.
      rewrite Forall_forall in Hall. rewrite Forall_forall in Hnone.
      apply Forall_forall.
      intros d Hd. simpl. rewrite (Hall d Hd).
      specialize (Hnone d Hd). simpl in Hnone. by rewrite Hnone. }
    induction Hzero as [|c cs -> _ IH]; [done|]. simpl. exact IH. }
  split; [done|]. intros header Hin.
  unfold season_headers in Hin. simpl in Hin. rewrite app_nil_r in Hin.
  destruct (has_specials records); [|by apply elem_of_nil in Hin].
  by apply list_elem_of_singleton in Hin.
Qed.
End SeasonColumnFacts.

Lemma no_remote_match_no_season_columns_witness :
  0 = 0
  ∧ ∀ header,
      header ∈ season_headers
                 [ {| fields := process_show_metadata sample_processors
                                  ["Title"] healthy_show;
                      seasons_in_plex := plex_of [(0, 1); (1, 2)];
                      tvmaze_info := None;
                      max_seasons := None |} ] 0
      → header = "S00".
Proof.
  apply (no_remote_match_no_season_columns sample_processors ["Title"]
           (get_tvmaze_show_info empty_server) [healthy_show] fresh_world
           {| cache := ∅; clock := 0; requests := 2; sleeps := [] |}).
  - vm_compute. reflexivity.
  - repeat constructor.
Defined.
